(** * Kaboot: the polling server's session state machine

    A shallow embedding of the WebSocket server of the Kaboot live
    polling app (the file with [wss.on('connection', ...)]): the store of
    games, the per-connection closure variables, the message handlers
    and the close handler, followed by the properties of the
    specification that concern them. *)

From Stdlib Require Import QArith Ascii String.
From stdpp Require Import gmap strings list fin_maps.
Close Scope Q_scope.
Open Scope string_scope.
Open Scope list_scope.
Open Scope nat_scope.
#[local] Set Warnings "-register-all".

(** ** JavaScript values received over the wire *)

(** The result of [JSON.parse]. A JSON number is an IEEE double; every
    finite double is a rational, and the handlers only compare numbers
    with [0] and with an array length and use them as property keys, so
    numbers are modelled by [Q]. A property that is missing reads as
    [undefined], modelled by [None : option json]. *)
Inductive json : Type :=
| JNull
| JBool (b : bool)
| JNum (q : Q)
| JStr (s : string)
| JArr (l : list json)
| JObj (o : list (string * json)).

Fixpoint jget (k : string) (o : list (string * json)) : option json :=
  match o with
  | [] => None
  | (k', v) :: o' => if String.eqb k k' then Some v else jget k o'
  end.

(** [message.k] for a non-null message. *)
Definition prop (k : string) (m : json) : option json :=
  match m with
  | JObj o => jget k o
  | _ => None
  end.

(** JavaScript truthiness, as used by [!question], [!code], [!name]. *)
Definition truthy (v : option json) : bool :=
  match v with
  | None => false
  | Some JNull => false
  | Some (JBool b) => b
  | Some (JNum q) => negb (Qeq_bool q 0)
  | Some (JStr s) => negb (String.eqb s "")
  | Some (JArr _) => true
  | Some (JObj _) => true
  end.

Definition truthy_str (s : string) : bool := negb (String.eqb s "").

(** ** Strings: [trim] and [slice] *)

(** White space and line terminators among the code units below 256. *)
Definition is_space (a : ascii) : bool :=
  let n := nat_of_ascii a in
  (Nat.eqb n 9 || Nat.eqb n 10 || Nat.eqb n 11 || Nat.eqb n 12
   || Nat.eqb n 13 || Nat.eqb n 32 || Nat.eqb n 160)%bool.

Fixpoint trimStart (s : string) : string :=
  match s with
  | EmptyString => EmptyString
  | String a r => if is_space a then trimStart r else s
  end.

Fixpoint trimEnd (s : string) : string :=
  match s with
  | EmptyString => EmptyString
  | String a r =>
      match trimEnd r with
      | EmptyString => if is_space a then EmptyString else String a EmptyString
      | r' => String a r'
      end
  end.

Definition trim (s : string) : string := trimEnd (trimStart s).

(** [s.slice(0, n)] *)
Fixpoint slice0 (n : nat) (s : string) : string :=
  match n, s with
  | S n', String a r => String a (slice0 n' r)
  | _, _ => EmptyString
  end.

(** ** Data model *)

Definition Sock := nat.
Definition Uuid := nat.

Inductive Role := host | player.

Inductive GState := lobby | active | ended.

#[global] Instance Role_eq_dec : EqDecision Role.
Proof. solve_decision. Defined.

#[global] Instance GState_eq_dec : EqDecision GState.
Proof. solve_decision. Defined.

Record Player := mkPlayer {
  p_id : Uuid;
  p_name : string;
  p_socket : Sock;
  hasVoted : bool;
  choiceIndex : option Q;   (* [undefined] or a number *)
}.

(** A JavaScript [Map] keeps its entries in insertion order; the roster
    is iterated ([forEach], [values]), so it is an association list. *)
Section JsMap.
Context {K V : Type} `{EqDecision K}.

Fixpoint mget (k : K) (m : list (K * V)) : option V :=
  match m with
  | [] => None
  | (k', v) :: m' => if decide (k = k') then Some v else mget k m'
  end.

Fixpoint mset (k : K) (v : V) (m : list (K * V)) : list (K * V) :=
  match m with
  | [] => [(k, v)]
  | (k', v') :: m' =>
      if decide (k = k') then (k, v) :: m' else (k', v') :: mset k v m'
  end.

Fixpoint mdelete (k : K) (m : list (K * V)) : list (K * V) :=
  match m with
  | [] => []
  | (k', v') :: m' =>
      if decide (k = k') then m' else (k', v') :: mdelete k m'
  end.

Definition mvalues (m : list (K * V)) : list V := m.*2.
Definition mkeys (m : list (K * V)) : list K := m.*1.
End JsMap.

Record Game := mkGame {
  code : string;
  hostId : Uuid;
  hostSocket : Sock;
  question : string;
  options : list string;
  players : list (Uuid * Player);
  state : GState;
}.

(** The variables closed over by one connection's handlers. *)
Record Conn := mkConn {
  clientId : Uuid;
  role : option Role;
  currentGameCode : option string;
  playerId : option Uuid;
}.

(** ** Outbound messages *)

(** One cell of a results array as [JSON.stringify] writes it: a count,
    or [null] for [NaN] and for a hole. *)
Abbreviation cell := (option nat).

Inductive Payload :=
| PError (message : string)
| PIdentified (r : Role)
| PGameCreated (c : string) (q : string) (opts : list string)
| PPollUpdated (q : string) (opts : list string)
| PPlayersUpdated (ps : list (Uuid * string * bool))
| PPollStarted
| PPollProgress (results : list cell)
| PHostResults (results : list cell)
| PJoined (c : string) (q : option string) (opts : option (list string))
| PPollStart (q : string) (opts : list string)
| PVoted (i : Q)
| PPollResults (q : string) (opts : list string) (results : list cell)
| PPollReset (message : string)
| PGameEnded (message : string).

Definition Delivery : Type := Sock * Payload.

(** [ready s] is [s.readyState === WebSocket.OPEN] at the time of the
    call; it is decided by the transport, not by the server. *)
Definition send (ready : Sock → bool) (s : Sock) (p : Payload) : list Delivery :=
  if ready s then [(s, p)] else [].

Definition broadcastToPlayers (ready : Sock → bool) (g : Game) (p : Payload)
  : list Delivery :=
  flat_map (λ pl, send ready (p_socket pl) p) (mvalues (players g)).

Definition serializePlayers (g : Game) : list (Uuid * string * bool) :=
  map (λ pl, (p_id pl, p_name pl, hasVoted pl)) (mvalues (players g)).

(** ** The tally *)

(** [counts[x]] addresses an element only when [x] is an array index, a
    non-negative integer below [2^32 - 1]; any other number names an
    ordinary property, which is neither an element nor serialised. *)
Definition as_index (q : Q) : option nat :=
  let r := Qred q in
  if (Pos.eqb (Qden r) 1 && Z.leb 0 (Qnum r) && Z.ltb (Qnum r) (2 ^ 32 - 1))%Z
  then Some (Z.to_nat (Qnum r)) else None.

(** [counts[i] += 1]: inside the array the element is incremented
    ([NaN + 1] is [NaN]); past the end the array grows, the new elements
    before [i] are holes and element [i] is [undefined + 1], [NaN]. *)
Definition bump (counts : list cell) (i : nat) : list cell :=
  if decide (i < length counts) then alter (fmap S) i counts
  else counts ++ replicate (i - length counts) None ++ [None].

Definition vote_into (counts : list cell) (pl : Player) : list cell :=
  match choiceIndex pl with
  | Some q =>
      match as_index q with
      | Some i => bump counts i
      | None => counts
      end
  | None => counts
  end.

Definition countVotes (g : Game) : list cell :=
  foldl vote_into (map (λ _, Some 0) (options g)) (mvalues (players g)).

(** ** Handlers *)

(** What running a handler can come to: it returns; or it throws a
    [TypeError] that nothing catches (calling [trim] on a value that is
    not a string, reading a property of [null]); or [generateGameCode]
    is still looping when the given random draws are used up. *)
Inductive Result (A : Type) : Type :=
| Done (a : A)
| Throws
| Spins.
Arguments Done {A} a.
Arguments Throws {A}.
Arguments Spins {A}.

(** Sequencing: what follows a call runs only if the call returns. *)
#[global] Instance Result_bind : MBind Result := λ A B f r,
  match r with
  | Done a => f a
  | Throws => Throws
  | Spins => Spins
  end.

(** The part of the server that one handler invocation can read and
    write: the connection's own variables, the store of games, and the
    supply of identifiers behind [randomUUID], whose successive results
    are taken to be pairwise distinct. *)
Record St := mkSt {
  conn : Conn;
  games : gmap string Game;
  uuids : nat;
}.

(** [draws] are the successive values of
    [Math.floor(100000 + Math.random() * 900000).toString()]. *)
Fixpoint generateGameCode (gs : gmap string Game) (draws : list string)
  : Result string :=
  match draws with
  | [] => Spins
  | c :: draws' =>
      match gs !! c with
      | Some _ => generateGameCode gs draws'
      | None => Done c
      end
  end.

(** [options.map((option) => option.trim())] *)
Fixpoint trimAll (l : list json) : Result (list string) :=
  match l with
  | [] => Done []
  | JStr s :: l' => r ← trimAll l'; Done (trim s :: r)
  | _ :: _ => Throws
  end.

(** [v.trim()]: only a string has the method. *)
Definition trimmedText (v : option json) : Result string :=
  match v with
  | Some (JStr s) => Done (trim s)
  | _ => Throws
  end.

(** [.filter(Boolean)] on strings *)
Definition nonEmpty (l : list string) : list string :=
  filter (λ s, s ≠ "") l.

(** [player.hasVoted = false; player.choiceIndex = undefined;] *)
Definition resetPlayer (pl : Player) : Player :=
  {| p_id := p_id pl; p_name := p_name pl; p_socket := p_socket pl;
     hasVoted := false; choiceIndex := None |}.

(** [game.players.forEach] of the above: the entries keep their keys
    and their order. *)
Definition resetPlayers (ps : list (Uuid * Player)) : list (Uuid * Player) :=
  map (λ e, (e.1, resetPlayer e.2)) ps.

(** The string a value is, if it is one; a value that is not a string
    is [===] to no string. *)
Definition as_string (v : option json) : option string :=
  match v with
  | Some (JStr s) => Some s
  | _ => None
  end.

(** [['host', 'player'].includes(message.role)] *)
Definition parseRole (v : option json) : option Role :=
  match as_string v with
  | Some s =>
      if String.eqb s "host" then Some host
      else if String.eqb s "player" then Some player
      else None
  | None => None
  end.

(** [currentGameCode && games.has(currentGameCode)], with the game. *)
Definition currentGame (c : Conn) (gs : gmap string Game)
  : option (string * Game) :=
  match currentGameCode c with
  | Some cd => if truthy_str cd then (λ g, (cd, g)) <$> gs !! cd else None
  | None => None
  end.

(** Assignments to the connection's variables, and to the store. *)
Definition with_conn (st : St) (c : Conn) : St :=
  {| conn := c; games := games st; uuids := uuids st |}.

Definition with_games (st : St) (gs : gmap string Game) : St :=
  {| conn := conn st; games := gs; uuids := uuids st |}.

Section Handlers.
Variable ready : Sock → bool.
Variable draws : list string.
Variable socket : Sock.

Definition reject (st : St) (msg : string) : Result (St * list Delivery) :=
  Done (st, send ready socket (PError msg)).

Definition on_identify (m : json) (st : St) : Result (St * list Delivery) :=
  match parseRole (prop "role" m) with
  | None => reject st "Unknown role specified."
  | Some r =>
      let c := conn st in
      Done (with_conn st {| clientId := clientId c; role := Some r;
                            currentGameCode := currentGameCode c;
                            playerId := playerId c |},
            send ready socket (PIdentified r))
  end.

Definition on_create_game (m : json) (st : St) : Result (St * list Delivery) :=
  if negb (bool_decide (role (conn st) = Some host)) then
    reject st "Only hosts can create games."
  else
    let question := prop "question" m in
    let options := prop "options" m in
    match options with
    | Some (JArr opts) =>
        if negb (truthy question) || (length opts <? 2)%nat then
          reject st "A question and at least two options are required to start a poll."
        else
          trimmed ← trimAll opts;
          let trimmedOptions := nonEmpty trimmed in
          if (length trimmedOptions <? 2)%nat then
            reject st "Provide at least two non-empty answer options."
          else
            cd ← generateGameCode (games st) draws;
            q ← trimmedText question;
            let c := conn st in
            let game :=
              {| code := cd; hostId := clientId c; hostSocket := socket;
                 question := q; options := trimmedOptions; players := [];
                 state := lobby |} in
            Done ({| conn := {| clientId := clientId c; role := role c;
                                 currentGameCode := Some cd;
                                 playerId := playerId c |};
                     games := <[cd := game]> (games st);
                     uuids := uuids st |},
                  send ready socket (PGameCreated cd q trimmedOptions))
    | _ =>
        reject st "A question and at least two options are required to start a poll."
    end.

Definition on_update_poll (m : json) (st : St) : Result (St * list Delivery) :=
  if negb (bool_decide (role (conn st) = Some host)) then
    reject st "Only hosts can update polls."
  else
    match currentGame (conn st) (games st) with
    | None => reject st "Create a game before updating the poll."
    | Some (cd, game) =>
        let question := prop "question" m in
        let options := prop "options" m in
        match options with
        | Some (JArr opts) =>
            if negb (truthy question) || (length opts <? 2)%nat then
              reject st "A question and at least two options are required."
            else
              trimmed ← trimAll opts;
              let trimmedOptions := nonEmpty trimmed in
              if (length trimmedOptions <? 2)%nat then
                reject st "Provide at least two non-empty answer options."
              else
                q ← trimmedText question;
                let game' :=
                  {| code := code game; hostId := hostId game;
                     hostSocket := hostSocket game; question := q;
                     options := trimmedOptions;
                     players := resetPlayers (players game);
                     state := lobby |} in
                Done (with_games st (<[cd := game']> (games st)),
                      send ready socket (PPollUpdated q trimmedOptions)
                      ++ send ready socket
                           (PPlayersUpdated (serializePlayers game'))
                      ++ broadcastToPlayers ready game'
                           (PPollReset "The host is preparing a new poll. Please wait for the next question."))
        | _ => reject st "A question and at least two options are required."
        end
    end.

Definition on_start_poll (st : St) : Result (St * list Delivery) :=
  if negb (bool_decide (role (conn st) = Some host)) then
    reject st "Only hosts can start polls."
  else
    match currentGame (conn st) (games st) with
    | None => reject st "Create a game before starting the poll."
    | Some (cd, game) =>
        if bool_decide (state game = active) then
          reject st "A poll is already in progress."
        else
          let game' :=
            {| code := code game; hostId := hostId game;
               hostSocket := hostSocket game; question := question game;
               options := options game;
               players := resetPlayers (players game);
               state := active |} in
          Done (with_games st (<[cd := game']> (games st)),
                send ready socket (PPlayersUpdated (serializePlayers game'))
                ++ broadcastToPlayers ready game'
                     (PPollStart (question game') (options game'))
                ++ send ready socket PPollStarted)
    end.

Definition on_end_poll (st : St) : Result (St * list Delivery) :=
  if negb (bool_decide (role (conn st) = Some host)) then
    reject st "Only hosts can end polls."
  else
    match currentGame (conn st) (games st) with
    | None => reject st "Create a game before ending the poll."
    | Some (cd, game) =>
        if negb (bool_decide (state game = active)) then
          reject st "The poll is not currently running."
        else
          let game' :=
            {| code := code game; hostId := hostId game;
               hostSocket := hostSocket game; question := question game;
               options := options game; players := players game;
               state := ended |} in
          let results := countVotes game' in
          Done (with_games st (<[cd := game']> (games st)),
                send ready socket (PHostResults results)
                ++ broadcastToPlayers ready game'
                     (PPollResults (question game') (options game') results))
    end.

(** [games.get(code)] for the [code] of a message: the keys of the store
    are strings, and no other value is equal to a string. *)
Definition lookupGame (gs : gmap string Game) (v : option json)
  : option (string * Game) :=
  match as_string v with
  | Some cd => (λ g, (cd, g)) <$> gs !! cd
  | None => None
  end.

Definition on_join (m : json) (st : St) : Result (St * list Delivery) :=
  if negb (bool_decide (role (conn st) = Some player)) then
    reject st "Only players can join games."
  else
    let jcode := prop "code" m in
    let name := prop "name" m in
    if negb (truthy jcode) || negb (truthy name) then
      reject st "A game code and display name are required."
    else
      match lookupGame (games st) jcode with
      | None => reject st "No game found with that code."
      | Some (cd, game) =>
          let pid := uuids st in
          n ← trimmedText name;
          let pl :=
            {| p_id := pid; p_name := slice0 40 n;
               p_socket := socket; hasVoted := false;
               choiceIndex := None |} in
          let game' :=
            {| code := code game; hostId := hostId game;
               hostSocket := hostSocket game; question := question game;
               options := options game;
               players := mset pid pl (players game);
               state := state game |} in
          let c := conn st in
          let live := bool_decide (state game = active) in
          Done ({| conn := {| clientId := clientId c; role := role c;
                               currentGameCode := Some cd;
                               playerId := Some pid |};
                   games := <[cd := game']> (games st);
                   uuids := S (uuids st) |},
                send ready socket
                  (PJoined cd
                     (if live then Some (question game) else None)
                     (if live then Some (options game) else None))
                ++ send ready (hostSocket game)
                     (PPlayersUpdated (serializePlayers game'))
                ++ (if live then
                      send ready socket
                        (PPollStart (question game) (options game))
                    else []))
      end.

(** [typeof choiceIndex !== 'number' || choiceIndex < 0 ||
    choiceIndex >= game.options.length], negated. *)
Definition validChoice (v : option json) (g : Game) : option Q :=
  match v with
  | Some (JNum q) =>
      if negb (Qle_bool 0 q)
         || Qle_bool (inject_Z (Z.of_nat (length (options g)))) q
      then None else Some q
  | _ => None
  end.

(** [game.players.get(playerId)], where [playerId] may still be [null]. *)
Definition ownPlayer (c : Conn) (g : Game) : option (Uuid * Player) :=
  playerId c ≫= λ pid, (λ pl, (pid, pl)) <$> mget pid (players g).

Definition on_vote (m : json) (st : St) : Result (St * list Delivery) :=
  if negb (bool_decide (role (conn st) = Some player)) then
    reject st "Only players can vote."
  else
    match currentGame (conn st) (games st) with
    | None => reject st "Join a game before voting."
    | Some (cd, game) =>
        if negb (bool_decide (state game = active)) then
          reject st "Voting is not open at the moment."
        else
          match ownPlayer (conn st) game with
          | None => reject st "You are not part of this game."
          | Some (pid, pl) =>
              if hasVoted pl then
                reject st "You have already voted in this poll."
              else
                match validChoice (prop "choiceIndex" m) game with
                | None => reject st "Please select a valid option."
                | Some q =>
                    let pl' :=
                      {| p_id := p_id pl; p_name := p_name pl;
                         p_socket := p_socket pl; hasVoted := true;
                         choiceIndex := Some q |} in
                    let game' :=
                      {| code := code game; hostId := hostId game;
                         hostSocket := hostSocket game;
                         question := question game;
                         options := options game;
                         players := mset pid pl' (players game);
                         state := state game |} in
                    Done (with_games st (<[cd := game']> (games st)),
                          send ready socket (PVoted q)
                          ++ send ready (hostSocket game)
                               (PPlayersUpdated (serializePlayers game'))
                          ++ send ready (hostSocket game)
                               (PPollProgress (countVotes game')))
                end
          end
    end.

(** The ['message'] listener; [raw] is [None] when [JSON.parse] threw. *)
Definition onMessage (raw : option json) (st : St)
  : Result (St * list Delivery) :=
  match raw with
  | None => reject st "Invalid JSON payload received."
  | Some JNull => Throws
  | Some m =>
      match as_string (prop "type" m) with
      | Some t =>
          if String.eqb t "identify" then on_identify m st
          else if String.eqb t "host:create_game" then on_create_game m st
          else if String.eqb t "host:update_poll" then on_update_poll m st
          else if String.eqb t "host:start_poll" then on_start_poll st
          else if String.eqb t "host:end_poll" then on_end_poll st
          else if String.eqb t "player:join" then on_join m st
          else if String.eqb t "player:vote" then on_vote m st
          else reject st "Unknown message type received."
      | None => reject st "Unknown message type received."
      end
  end.

Definition destroyGame (cd : string) (gs : gmap string Game)
  : gmap string Game * list Delivery :=
  match gs !! cd with
  | None => (gs, [])
  | Some game =>
      (delete cd gs,
       broadcastToPlayers ready game
         (PGameEnded "The host has disconnected. The poll has ended."))
  end.

(** The ['close'] listener. *)
Definition onClose (st : St) : St * list Delivery :=
  let c := conn st in
  let '(gs1, out1) :=
    match role c, currentGameCode c with
    | Some host, Some cd =>
        if truthy_str cd then destroyGame cd (games st) else (games st, [])
    | _, _ => (games st, [])
    end in
  let '(gs2, out2) :=
    match role c, currentGame c gs1, playerId c with
    | Some player, Some (cd, game), Some pid =>
        let game' :=
          {| code := code game; hostId := hostId game;
             hostSocket := hostSocket game; question := question game;
             options := options game;
             players := mdelete pid (players game);
             state := state game |} in
        (<[cd := game']> gs1,
         send ready (hostSocket game)
           (PPlayersUpdated (serializePlayers game')))
    | _, _, _ => (gs1, [])
    end in
  (with_games st gs2, out1 ++ out2).
End Handlers.

(** ** The server *)

(** The whole server: the [games] map, the variables of every open
    connection, the identifier supply, and the number of sockets handed
    out so far. *)
Record World := mkWorld {
  w_games : gmap string Game;
  w_conns : gmap Sock Conn;
  w_uuids : nat;
  w_socks : nat;
}.

Definition init : World :=
  {| w_games := ∅; w_conns := ∅; w_uuids := 0; w_socks := 0 |}.

(** What the transport reports: a new connection (its socket is the next
    unused one), a frame on a socket, the end of a socket. *)
Inductive Event :=
| EConnect
| EMessage (s : Sock) (raw : option json)
| EClose (s : Sock).

(** What a listener of connection [c] sees of the world, and the world
    once the listener on socket [s] has returned. *)
Definition st_of (w : World) (c : Conn) : St :=
  {| conn := c; games := w_games w; uuids := w_uuids w |}.

Definition world_of (w : World) (s : Sock) (st : St) : World :=
  {| w_games := games st; w_conns := <[s := conn st]> (w_conns w);
     w_uuids := uuids st; w_socks := w_socks w |}.

(** One event, handled to the end before the next one: the listeners
    are synchronous. An event on a socket that is not open does not
    occur; it is given no effect. *)
Definition step (ready : Sock → bool) (draws : list string)
  (w : World) (ev : Event) : Result (World * list Delivery) :=
  match ev with
  | EConnect =>
      let c := {| clientId := w_uuids w; role := None;
                  currentGameCode := None; playerId := None |} in
      Done ({| w_games := w_games w;
               w_conns := <[w_socks w := c]> (w_conns w);
               w_uuids := S (w_uuids w);
               w_socks := S (w_socks w) |}, [])
  | EMessage s raw =>
      match w_conns w !! s with
      | None => Done (w, [])
      | Some c =>
          '(st', out) ← onMessage ready draws s raw (st_of w c);
          Done (world_of w s st', out)
      end
  | EClose s =>
      match w_conns w !! s with
      | None => Done (w, [])
      | Some c =>
          let '(st', out) := onClose ready (st_of w c) in
          Done ({| w_games := games st'; w_conns := delete s (w_conns w);
                   w_uuids := uuids st'; w_socks := w_socks w |}, out)
      end
  end.

(** The worlds the server can be in. *)
Inductive reachable : World → Prop :=
| reachable_init : reachable init
| reachable_step ready draws w ev w' out :
    reachable w →
    step ready draws w ev = Done (w', out) →
    reachable w'.

(** Running a whole trace; each event comes with the transport's view of
    the sockets and the random draws available to it. *)
Fixpoint run (w : World) (evs : list ((Sock → bool) * list string * Event))
  : Result (World * list Delivery) :=
  match evs with
  | [] => Done (w, [])
  | (ready, draws, ev) :: evs' =>
      '(w', out) ← step ready draws w ev;
      '(w'', out') ← run w' evs';
      Done (w'', out ++ out')
  end.

(** ** Frames as the clients write them *)

Definition msg_identify (r : string) : json :=
  JObj [("type", JStr "identify"); ("role", JStr r)].

Definition msg_create_game (q : string) (opts : list string) : json :=
  JObj [("type", JStr "host:create_game"); ("question", JStr q);
        ("options", JArr (JStr <$> opts))].

Definition msg_update_poll (q : string) (opts : list string) : json :=
  JObj [("type", JStr "host:update_poll"); ("question", JStr q);
        ("options", JArr (JStr <$> opts))].

Definition msg_start_poll : json := JObj [("type", JStr "host:start_poll")].

Definition msg_end_poll : json := JObj [("type", JStr "host:end_poll")].

Definition msg_join (c name : string) : json :=
  JObj [("type", JStr "player:join"); ("code", JStr c); ("name", JStr name)].

Definition msg_vote (i : Q) : json :=
  JObj [("type", JStr "player:vote"); ("choiceIndex", JNum i)].

Definition all_open : Sock → bool := λ _, true.

(** An event with every socket writable and one random draw. *)
Definition ev (d : string) (e : Event) : (Sock → bool) * list string * Event :=
  (all_open, [d], e).

(** ** The host front end *)

(** [sanitizeOptions] of the host page, applied to the option fields
    before a poll is sent; [MAX_OPTIONS] is six. *)
Definition MAX_OPTIONS : nat := 6.

Definition sanitizeOptions (opts : list string) : list string :=
  take MAX_OPTIONS (filter (λ o, 0 < String.length o) (trim <$> opts)).

(** [ensureOptionInputs]: the option fields of the form, padded with
    empty ones while there are fewer than two, then cut to six. *)
Definition ensureOptionInputs (opts : list string) : list string :=
  take MAX_OPTIONS (opts ++ replicate (2 - length opts) "").

(** The state updaters of [handleAddOption] and [handleRemoveOption]. *)
Definition handleAddOption (current : list string) : list string :=
  if MAX_OPTIONS <=? length current then current else current ++ [""].

Definition handleRemoveOption (index : nat) (current : list string)
  : list string :=
  if length current <=? 2 then current
  else ensureOptionInputs (delete index current).

(** [sendPollMutation]: the frame the host page sends for the form as
    it stands, if it sends one; [socketOpen] is the test made by
    [sendMessage]. *)
Definition sendPollMutation (connectionReady socketOpen : bool)
    (type : string) (question : string) (optionInputs : list string)
  : option json :=
  if negb connectionReady then None
  else
    let trimmedQuestion := trim question in
    if String.eqb trimmedQuestion "" then None
    else
      let cleanedOptions := sanitizeOptions optionInputs in
      if length cleanedOptions <? 2 then None
      else if socketOpen then
        Some (JObj [("type", JStr type);
                    ("question", JStr trimmedQuestion);
                    ("options", JArr (JStr <$> cleanedOptions))])
      else None.

(** ** Concrete servers and traces *)

(** A concrete server: one host (socket 0) with the session ["123456"],
    one player connection (socket 1) that joined it as Ann. *)
Definition ann (voted : bool) (choice : option Q) : Player :=
  {| p_id := 2; p_name := "Ann"; p_socket := 1;
     hasVoted := voted; choiceIndex := choice |}.

Definition colors (st : GState) (ps : list (Uuid * Player)) : Game :=
  {| code := "123456"; hostId := 0; hostSocket := 0;
     question := "Pick a color"; options := ["Red"; "Blue"];
     players := ps; state := st |}.

Definition host_conn : Conn :=
  {| clientId := 0; role := Some host;
     currentGameCode := Some "123456"; playerId := None |}.

Definition ann_conn : Conn :=
  {| clientId := 1; role := Some player;
     currentGameCode := Some "123456"; playerId := Some 2 |}.

Definition world_with (g : Game) : World :=
  {| w_games := {["123456" := g]};
     w_conns := <[1 := ann_conn]> {[0 := host_conn]};
     w_uuids := 3; w_socks := 2 |}.

(** The server after one host has connected and identified itself. *)
Definition host_only : World :=
  {| w_games := ∅;
     w_conns := {[0 := {| clientId := 0; role := Some host;
                          currentGameCode := None; playerId := None |}]};
     w_uuids := 1; w_socks := 1 |}.

(** The scenario of the specification: create, join, start, vote, end. *)
Definition scenario : list ((Sock → bool) * list string * Event) :=
  [ev "" EConnect; ev "" EConnect;
   ev "" (EMessage 0 (Some (msg_identify "host")));
   ev "" (EMessage 1 (Some (msg_identify "player")));
   ev "123456"
      (EMessage 0 (Some (msg_create_game "Pick a color" ["Red"; "Blue"])));
   ev "" (EMessage 1 (Some (msg_join "123456" "Ann")));
   ev "" (EMessage 0 (Some msg_start_poll));
   ev "" (EMessage 1 (Some (msg_vote 0%Q)));
   ev "" (EMessage 0 (Some msg_end_poll))].

(** A host sends a poll with seven options. *)
Definition seven : list string := ["a"; "b"; "c"; "d"; "e"; "f"; "g"].

Definition seven_trace : list ((Sock → bool) * list string * Event) :=
  [ev "" EConnect;
   ev "" (EMessage 0 (Some (msg_identify "host")));
   ev "123456" (EMessage 0 (Some (msg_create_game "Letter?" seven)))].

(** A player connection joins the same session twice. *)
Definition rejoin_trace : list ((Sock → bool) * list string * Event) :=
  [ev "" EConnect; ev "" EConnect;
   ev "" (EMessage 0 (Some (msg_identify "host")));
   ev "" (EMessage 1 (Some (msg_identify "player")));
   ev "123456"
      (EMessage 0 (Some (msg_create_game "Pick a color" ["Red"; "Blue"])));
   ev "" (EMessage 1 (Some (msg_join "123456" "Ann")));
   ev "" (EMessage 1 (Some (msg_join "123456" "Ann")))].

(** A host creates a second session, then disconnects. *)
Definition two_sessions_trace : list ((Sock → bool) * list string * Event) :=
  [ev "" EConnect; ev "" EConnect;
   ev "" (EMessage 0 (Some (msg_identify "host")));
   ev "" (EMessage 1 (Some (msg_identify "player")));
   ev "111111"
      (EMessage 0 (Some (msg_create_game "Pick a color" ["Red"; "Blue"])));
   ev "" (EMessage 1 (Some (msg_join "111111" "Ann")));
   ev "222222"
      (EMessage 0 (Some (msg_create_game "Pick a pet" ["Cat"; "Dog"])));
   ev "" (EClose 0)].

(** The only player votes one half, then the host ends the poll. *)
Definition half : Q := (1 # 2)%Q.

Definition half_vote_trace : list ((Sock → bool) * list string * Event) :=
  [ev "" EConnect; ev "" EConnect;
   ev "" (EMessage 0 (Some (msg_identify "host")));
   ev "" (EMessage 1 (Some (msg_identify "player")));
   ev "123456"
      (EMessage 0 (Some (msg_create_game "Pick a color" ["Red"; "Blue"])));
   ev "" (EMessage 1 (Some (msg_join "123456" "Ann")));
   ev "" (EMessage 0 (Some msg_start_poll));
   ev "" (EMessage 1 (Some (msg_vote half)));
   ev "" (EMessage 0 (Some msg_end_poll))].

(** A player connection votes, joins again in the same round and votes
    again. *)
Definition revote_trace : list ((Sock → bool) * list string * Event) :=
  [ev "" EConnect; ev "" EConnect;
   ev "" (EMessage 0 (Some (msg_identify "host")));
   ev "" (EMessage 1 (Some (msg_identify "player")));
   ev "123456"
      (EMessage 0 (Some (msg_create_game "Pick a color" ["Red"; "Blue"])));
   ev "" (EMessage 1 (Some (msg_join "123456" "Ann")));
   ev "" (EMessage 0 (Some msg_start_poll));
   ev "" (EMessage 1 (Some (msg_vote 0%Q)));
   ev "" (EMessage 1 (Some (msg_join "123456" "Ann")));
   ev "" (EMessage 1 (Some (msg_vote 1%Q)))].

(** A connection creates a session, joins the session of another host,
    identifies as host again and closes; its own socket is no longer
    writable when the close is handled. *)
Definition guest_close_trace : list ((Sock → bool) * list string * Event) :=
  [ev "" EConnect; ev "" EConnect;
   ev "" (EMessage 0 (Some (msg_identify "host")));
   ev "" (EMessage 1 (Some (msg_identify "host")));
   ev "111111"
      (EMessage 0 (Some (msg_create_game "Pick a color" ["Red"; "Blue"])));
   ev "222222"
      (EMessage 1 (Some (msg_create_game "Pick a pet" ["Cat"; "Dog"])));
   ev "" (EMessage 0 (Some (msg_identify "player")));
   ev "" (EMessage 0 (Some (msg_join "222222" "Ann")));
   ev "" (EMessage 0 (Some (msg_identify "host")));
   ((λ s, negb (s =? 0)), [], EClose 0)].

(** A connection joins a session as a player, then creates a session of
    its own as a host, identifies as player again and closes; its own
    socket is no longer writable when the close is handled. *)
Definition stray_entry_trace : list ((Sock → bool) * list string * Event) :=
  [ev "" EConnect; ev "" EConnect;
   ev "" (EMessage 0 (Some (msg_identify "host")));
   ev "111111"
      (EMessage 0 (Some (msg_create_game "Pick a color" ["Red"; "Blue"])));
   ev "" (EMessage 1 (Some (msg_identify "player")));
   ev "" (EMessage 1 (Some (msg_join "111111" "Ann")));
   ev "" (EMessage 1 (Some (msg_identify "host")));
   ev "222222"
      (EMessage 1 (Some (msg_create_game "Pick a pet" ["Cat"; "Dog"])));
   ev "" (EMessage 1 (Some (msg_identify "player")));
   ((λ s, negb (s =? 1)), [], EClose 1)].

(** The scenario, after which the host edits the poll. *)
Definition relobby_trace : list ((Sock → bool) * list string * Event) :=
  scenario
  ++ [ev "" (EMessage 0 (Some (msg_update_poll "Pick a pet" ["Cat"; "Dog"])))].

(** ** Notions used in the statements *)

(** The role a frame asks for: the frame is an [identify] whose [role]
    is one of the two recognised values. *)
Definition identify_role (raw : option json) : option Role :=
  match raw with
  | Some m =>
      match as_string (prop "type" m) with
      | Some t => if String.eqb t "identify" then parseRole (prop "role" m)
                  else None
      | None => None
      end
  | None => None
  end.

(** The options a session may hold. *)
Definition good_options (opts : list string) : Prop :=
  2 ≤ length opts ∧ Forall (λ o, o ≠ "" ∧ trim o = o) opts.

(** A number accepted as a choice lies in the range of the options. *)
Definition in_range (q : Q) (n : nat) : Prop :=
  (0 <= q)%Q ∧ (q < inject_Z (Z.of_nat n))%Q.

(** The entry of a player once it has voted [q]. *)
Definition voted (pl : Player) (q : Q) : Player :=
  {| p_id := p_id pl; p_name := p_name pl; p_socket := p_socket pl;
     hasVoted := true; choiceIndex := Some q |}.

(** [evolves u u' s old g']: what a single event arriving on socket [s]
    may put under a code of the store, [old] being what was there and
    [u], [u'] the identifier supply before and after. *)
Inductive evolves (u u' : nat) (s : Sock) : option Game → Game → Prop :=
| ev_create g' :
    u' = u → good_options (options g') → players g' = [] →
    state g' = lobby → hostSocket g' = s →
    evolves u u' s None g'
| ev_update g g' :
    u' = u → good_options (options g') →
    players g' = resetPlayers (players g) → state g' = lobby →
    hostSocket g' = hostSocket g →
    evolves u u' s (Some g) g'
| ev_start g g' :
    u' = u → options g' = options g →
    players g' = resetPlayers (players g) → state g' = active →
    state g ≠ active → hostSocket g' = hostSocket g →
    evolves u u' s (Some g) g'
| ev_end g g' :
    u' = u → options g' = options g → players g' = players g →
    state g' = ended → state g = active → hostSocket g' = hostSocket g →
    evolves u u' s (Some g) g'
| ev_join g g' pl :
    u' = S u → options g' = options g →
    players g' = mset u pl (players g) →
    p_id pl = u → p_socket pl = s →
    hasVoted pl = false → choiceIndex pl = None →
    state g' = state g → hostSocket g' = hostSocket g →
    evolves u u' s (Some g) g'
| ev_vote g g' pid pl q :
    u' = u → options g' = options g →
    mget pid (players g) = Some pl → hasVoted pl = false →
    in_range q (length (options g)) →
    players g' = mset pid (voted pl q) (players g) →
    state g' = state g → state g = active → hostSocket g' = hostSocket g →
    evolves u u' s (Some g) g'
| ev_leave g g' pid :
    u' = u → options g' = options g →
    players g' = mdelete pid (players g) →
    state g' = state g → hostSocket g' = hostSocket g →
    evolves u u' s (Some g) g'.

(** What a single event may do to the store: nothing, put one game
    under one code, or remove one game. *)
Definition change (u u' : nat) (s : Sock) (gs gs' : gmap string Game) : Prop :=
  (gs' = gs ∧ u ≤ u')
  ∨ (∃ cd g', gs' = <[cd := g']> gs ∧ evolves u u' s (gs !! cd) g')
  ∨ (∃ cd g, gs !! cd = Some g ∧ gs' = delete cd gs ∧ u' = u).

(** What holds of every roster entry: its identifier has been drawn
    already and is the one stored in it, it has voted exactly when it
    has a choice, and its choice lies within the [n] options. *)
Definition player_ok (u n : nat) (e : Uuid * Player) : Prop :=
  e.1 < u ∧ p_id e.2 = e.1
  ∧ (hasVoted e.2 = true ↔ is_Some (choiceIndex e.2))
  ∧ (∀ q, choiceIndex e.2 = Some q → in_range q n).

Definition game_ok (u : nat) (g : Game) : Prop :=
  good_options (options g)
  ∧ NoDup (mkeys (players g))
  ∧ Forall (player_ok u (length (options g))) (players g).

(** What holds of the whole store: every game is in order, and no
    player identifier occurs in two games. *)
Definition world_ok (w : World) : Prop :=
  (∀ cd g, w_games w !! cd = Some g → game_ok (w_uuids w) g)
  ∧ (∀ cd1 cd2 g1 g2 pid,
       w_games w !! cd1 = Some g1 → w_games w !! cd2 = Some g2 →
       pid ∈ mkeys (players g1) → pid ∈ mkeys (players g2) → cd1 = cd2).

(** The sum of a results array, [null] counting for nothing. *)
Definition total (counts : list cell) : nat :=
  foldr (λ c n, default 0 c + n) 0 counts.

(** The roster players with [hasVoted = true]. *)
Definition voters (g : Game) : list Player :=
  filter (λ pl, hasVoted pl = true) (mvalues (players g)).

(** The array element a player's choice addresses, if any. *)
Definition chosen (pl : Player) : option nat := choiceIndex pl ≫= as_index.

(** The results array spelled out: at each index, the number of players
    of [l] that chose it. *)
Definition tally (n : nat) (l : list Player) : list cell :=
  (λ i, Some (length (filter (λ pl, chosen pl = Some i) l))) <$> seq 0 n.

(** A game whose stored choices all address an option. *)
Definition choices_within (g : Game) : Prop :=
  ∀ pl i, pl ∈ mvalues (players g) → chosen pl = Some i →
          i < length (options g).

(** ** Notions used in the statements about the router *)

(** The actor an intent is reserved for, read off the [switch]: the
    first test of every case but [identify]. *)
Definition required_role (t : string) : option Role :=
  if String.eqb t "identify" then None
  else if String.eqb t "host:create_game" then Some host
  else if String.eqb t "host:update_poll" then Some host
  else if String.eqb t "host:start_poll" then Some host
  else if String.eqb t "host:end_poll" then Some host
  else if String.eqb t "player:join" then Some player
  else if String.eqb t "player:vote" then Some player
  else None.

(** The intents whose second test is
    [!currentGameCode || !games.has(currentGameCode)]. *)
Definition needs_session (t : string) : bool :=
  String.eqb t "host:update_poll" || String.eqb t "host:start_poll"
  || String.eqb t "host:end_poll" || String.eqb t "player:vote".

(** The labels of the [switch]. *)
Definition known_type (t : string) : bool :=
  String.eqb t "identify" || String.eqb t "host:create_game"
  || String.eqb t "host:update_poll" || String.eqb t "host:start_poll"
  || String.eqb t "host:end_poll" || String.eqb t "player:join"
  || String.eqb t "player:vote".

(** A value that is a string. *)
Definition is_text (j : json) : bool :=
  match j with
  | JStr _ => true
  | _ => false
  end.

(** A frame that is a [host:update_poll]. *)
Definition is_update (e : Event) : bool :=
  match e with
  | EMessage _ (Some m) =>
      match as_string (prop "type" m) with
      | Some t => String.eqb t "host:update_poll"
      | None => false
      end
  | _ => false
  end.

(** * Properties *)

(** ** Basic facts about the model *)

Lemma world_of_same w s c :
  w_conns w !! s = Some c → world_of w s (st_of w c) = w.
Proof.
  intros Hc. destruct w as [gs cs u k]. unfold world_of, st_of; simpl in *.
  by rewrite insert_id.
Qed.

Lemma world_of_games w s c gs :
  w_conns w !! s = Some c →
  world_of w s (with_games (st_of w c) gs)
  = {| w_games := gs; w_conns := w_conns w;
       w_uuids := w_uuids w; w_socks := w_socks w |}.
Proof.
  intros Hc. unfold world_of, with_games, st_of; simpl.
  by rewrite insert_id.
Qed.

Lemma currentGame_Some c gs cd g :
  currentGame c gs = Some (cd, g) ↔
  currentGameCode c = Some cd ∧ cd ≠ "" ∧ gs !! cd = Some g.
Proof.
  unfold currentGame, truthy_str. split.
  - destruct (currentGameCode c) as [cd'|]; [|done].
    destruct (String.eqb_spec cd' ""); simpl; [done|].
    destruct (gs !! cd') as [g'|] eqn:E; simpl; [|done].
    intros [= <- <-]. done.
  - intros (-> & Hne & Hg).
    destruct (String.eqb_spec cd ""); [done|]. simpl. by rewrite Hg.
Qed.

Lemma typed_not_null m t : as_string (prop "type" m) = Some t → m ≠ JNull.
Proof. by intros H ->. Qed.

(** The dispatch of the [switch] on a frame that carries a type. *)
Lemma onMessage_typed ready draws s m st t :
  as_string (prop "type" m) = Some t →
  onMessage ready draws s (Some m) st =
    if String.eqb t "identify" then on_identify ready s m st
    else if String.eqb t "host:create_game" then on_create_game ready draws s m st
    else if String.eqb t "host:update_poll" then on_update_poll ready s m st
    else if String.eqb t "host:start_poll" then on_start_poll ready s st
    else if String.eqb t "host:end_poll" then on_end_poll ready s st
    else if String.eqb t "player:join" then on_join ready s m st
    else if String.eqb t "player:vote" then on_vote ready s m st
    else reject ready s st "Unknown message type received.".
Proof.
  intros Ht. unfold onMessage. rewrite Ht.
  destruct m; try reflexivity. discriminate.
Qed.

Lemma step_message ready draws w s c raw st' out :
  w_conns w !! s = Some c →
  onMessage ready draws s raw (st_of w c) = Done (st', out) →
  step ready draws w (EMessage s raw) = Done (world_of w s st', out).
Proof. intros Hc H. unfold step. by rewrite Hc, H. Qed.

Lemma step_reject ready draws w s c raw msg :
  w_conns w !! s = Some c →
  onMessage ready draws s raw (st_of w c) = reject ready s (st_of w c) msg →
  step ready draws w (EMessage s raw) = Done (w, send ready s (PError msg)).
Proof.
  intros Hc H. rewrite (step_message _ _ _ _ _ _ _ _ Hc H).
  by rewrite world_of_same.
Qed.

Lemma resetPlayers_keys ps : mkeys (resetPlayers ps) = mkeys ps.
Proof.
  unfold mkeys, resetPlayers. induction ps as [|[k v] ps IH]; simpl; [done|].
  by f_equal.
Qed.

Lemma resetPlayers_cleared ps :
  Forall (λ pl, hasVoted pl = false ∧ choiceIndex pl = None)
         (mvalues (resetPlayers ps)).
Proof.
  unfold mvalues, resetPlayers. induction ps as [|[k v] ps IH]; simpl.
  - constructor.
  - constructor; [done|exact IH].
Qed.

Lemma mget_Some_elem {K V} `{EqDecision K} (k : K) (v : V) m :
  mget k m = Some v → v ∈ mvalues m.
Proof.
  unfold mvalues. induction m as [|[k' v'] m IH]; simpl; [done|].
  case_decide.
  - intros [= ->]. left.
  - intros. right. auto.
Qed.

(** ** Starting a round *)

(** C5. For a host connection with a live current session, a
    [host:start_poll] frame is refused with an error, leaving the server
    as it was, when the session is already [active]; from [lobby] or
    [ended] it is accepted, the session becomes [active], the roster
    keeps its players, and every one of them has [hasVoted = false] and
    no [choiceIndex], whatever they held before. *)
Theorem start_poll_clears_votes ready draws w s c cd g m :
  w_conns w !! s = Some c →
  role c = Some host →
  currentGame c (w_games w) = Some (cd, g) →
  as_string (prop "type" m) = Some "host:start_poll" →
  (state g = active →
     step ready draws w (EMessage s (Some m))
     = Done (w, send ready s (PError "A poll is already in progress.")))
  ∧ (state g = lobby ∨ state g = ended →
     ∃ g' out,
       step ready draws w (EMessage s (Some m))
       = Done ({| w_games := <[cd := g']> (w_games w);
                  w_conns := w_conns w; w_uuids := w_uuids w;
                  w_socks := w_socks w |}, out)
       ∧ state g' = active
       ∧ mkeys (players g') = mkeys (players g)
       ∧ Forall (λ pl, hasVoted pl = false ∧ choiceIndex pl = None)
                (mvalues (players g'))).
Proof.
  intros Hc Hrole Hgame Ht. split.
  - intros Hact. apply (step_reject _ _ _ _ c); [done|].
    rewrite (onMessage_typed _ _ _ _ _ _ Ht). simpl.
    unfold on_start_poll. simpl. rewrite Hrole, Hgame. simpl.
    by rewrite bool_decide_true.
  - intros Hst. eexists _, _.
    erewrite step_message; [|done|].
    2:{ rewrite (onMessage_typed _ _ _ _ _ _ Ht). simpl.
        unfold on_start_poll. simpl. rewrite Hrole, Hgame. simpl.
        rewrite bool_decide_false; [reflexivity|].
        destruct Hst as [-> | ->]; discriminate. }
    rewrite world_of_games by done. split; [reflexivity|]. simpl.
    split; [done|]. split; [apply resetPlayers_keys|apply resetPlayers_cleared].
Qed.

Example scenario_runs :
  ∃ out, run init scenario
         = Done (world_with (colors ended [(2, ann true (Some 0%Q))]), out)
         ∧ (0, PHostResults [Some 1; Some 0]) ∈ out
         ∧ (1, PPollResults "Pick a color" ["Red"; "Blue"] [Some 1; Some 0]) ∈ out.
Proof.
  eexists. split; [vm_compute; reflexivity|].
  split; apply list_elem_of_In; vm_compute; tauto.
Qed.

Lemma start_poll_clears_votes_witness :
  let g := colors ended [(2, ann true (Some 0%Q))] in
  w_conns (world_with g) !! 0 = Some host_conn
  ∧ role host_conn = Some host
  ∧ currentGame host_conn (w_games (world_with g)) = Some ("123456", g)
  ∧ ∃ g' out,
      step all_open [] (world_with g) (EMessage 0 (Some msg_start_poll))
      = Done ({| w_games := <["123456" := g']> (w_games (world_with g));
                 w_conns := w_conns (world_with g);
                 w_uuids := 3; w_socks := 2 |}, out)
      ∧ state g' = active
      ∧ mkeys (players g') = [2]
      ∧ Forall (λ pl, hasVoted pl = false ∧ choiceIndex pl = None)
               (mvalues (players g')).
Proof.
  intros g.
  assert (H1 : w_conns (world_with g) !! 0 = Some host_conn) by reflexivity.
  assert (H2 : role host_conn = Some host) by reflexivity.
  assert (H3 : currentGame host_conn (w_games (world_with g))
               = Some ("123456", g)) by reflexivity.
  split; [exact H1|]. split; [exact H2|]. split; [exact H3|].
  apply (proj2 (start_poll_clears_votes all_open [] (world_with g) 0
                  host_conn "123456" g msg_start_poll H1 H2 H3 eq_refl)).
  right. reflexivity.
Defined.

(** ** Voting twice *)

(** C6, as the server behaves. When the roster entry that a
    connection's player identifier names, the entry of its most recent
    join, has already voted in the round that is running, a further
    [player:vote] frame from that connection, whatever index it
    carries, is refused with an error and the server stays as it was:
    the stored [hasVoted] and [choiceIndex] of the entry are the same,
    and so is the tally. *)
Theorem second_vote_rejected ready draws w s c cd g pid pl m :
  w_conns w !! s = Some c →
  role c = Some player →
  currentGame c (w_games w) = Some (cd, g) →
  state g = active →
  playerId c = Some pid →
  mget pid (players g) = Some pl →
  hasVoted pl = true →
  as_string (prop "type" m) = Some "player:vote" →
  ∃ w',
    step ready draws w (EMessage s (Some m))
    = Done (w', send ready s (PError "You have already voted in this poll."))
    ∧ w' = w
    ∧ (∃ g', w_games w' !! cd = Some g'
             ∧ mget pid (players g') = Some pl
             ∧ countVotes g' = countVotes g).
Proof.
  intros Hc Hrole Hgame Hact Hpid Hpl Hvoted Ht.
  exists w. split; [|split; [done|]].
  - apply (step_reject _ _ _ _ c); [done|].
    rewrite (onMessage_typed _ _ _ _ _ _ Ht). simpl.
    unfold on_vote, ownPlayer. simpl. rewrite Hrole, Hgame. simpl.
    rewrite bool_decide_true by done. simpl.
    rewrite Hpid. simpl. rewrite Hpl. simpl. by rewrite Hvoted.
  - apply currentGame_Some in Hgame as (_ & _ & Hg). by exists g.
Qed.

Lemma second_vote_rejected_witness :
  let g := colors active [(2, ann true (Some 0%Q))] in
  hasVoted (ann true (Some 0%Q)) = true
  ∧ ∃ w',
      step all_open [] (world_with g) (EMessage 1 (Some (msg_vote 1%Q)))
      = Done (w', send all_open 1 (PError "You have already voted in this poll."))
      ∧ w' = world_with g
      ∧ (∃ g', w_games w' !! "123456" = Some g'
               ∧ mget 2 (players g') = Some (ann true (Some 0%Q))
               ∧ countVotes g' = countVotes g).
Proof.
  intros g. split; [reflexivity|].
  apply (second_vote_rejected all_open [] (world_with g) 1 ann_conn
           "123456" g 2 (ann true (Some 0%Q)) (msg_vote 1%Q));
    reflexivity.
Defined.


(** ** Editing the poll *)

Lemma trimAll_strings opts : trimAll (JStr <$> opts) = Done (trim <$> opts).
Proof.
  induction opts as [|o opts IH]; csimpl; [done|]. by rewrite IH.
Qed.

Lemma valid_poll_guards q opts :
  q ≠ "" →
  2 ≤ length (nonEmpty (trim <$> opts)) →
  String.eqb q "" = false
  ∧ (length (JStr <$> opts) <? 2) = false
  ∧ (length (nonEmpty (trim <$> opts)) <? 2) = false.
Proof.
  intros Hne Hlen. split; [by apply String.eqb_neq|].
  split; [|by apply Nat.ltb_ge].
  apply Nat.ltb_ge. rewrite length_fmap. etrans; [exact Hlen|].
  unfold nonEmpty. etrans; [apply length_filter|]. by rewrite length_fmap.
Qed.

(** What an accepted [host:update_poll] does. *)
Lemma on_update_poll_accepted ready s st cd g m q opts :
  role (conn st) = Some host →
  currentGame (conn st) (games st) = Some (cd, g) →
  prop "question" m = Some (JStr q) →
  prop "options" m = Some (JArr (JStr <$> opts)) →
  q ≠ "" →
  2 ≤ length (nonEmpty (trim <$> opts)) →
  on_update_poll ready s m st
  = let g' := {| code := code g; hostId := hostId g;
                 hostSocket := hostSocket g; question := trim q;
                 options := nonEmpty (trim <$> opts);
                 players := resetPlayers (players g); state := lobby |} in
    Done (with_games st (<[cd := g']> (games st)),
          send ready s (PPollUpdated (trim q) (nonEmpty (trim <$> opts)))
          ++ send ready s (PPlayersUpdated (serializePlayers g'))
          ++ broadcastToPlayers ready g'
               (PPollReset "The host is preparing a new poll. Please wait for the next question.")).
Proof.
  intros Hrole Hgame Hq Hopts Hne Hlen.
  destruct (valid_poll_guards q opts Hne Hlen) as (Hq0 & Hl1 & Hl2).
  unfold on_update_poll. simpl. rewrite Hrole, Hgame, Hq, Hopts. simpl.
  rewrite Hq0, Hl1, trimAll_strings. simpl. by rewrite Hl2.
Qed.

(** What an accepted [host:create_game] does. *)
Lemma on_create_game_accepted ready draws s st m q opts cd :
  role (conn st) = Some host →
  prop "question" m = Some (JStr q) →
  prop "options" m = Some (JArr (JStr <$> opts)) →
  q ≠ "" →
  2 ≤ length (nonEmpty (trim <$> opts)) →
  generateGameCode (games st) draws = Done cd →
  on_create_game ready draws s m st
  = let c := conn st in
    let g' := {| code := cd; hostId := clientId c; hostSocket := s;
                 question := trim q; options := nonEmpty (trim <$> opts);
                 players := []; state := lobby |} in
    Done ({| conn := {| clientId := clientId c; role := role c;
                         currentGameCode := Some cd;
                         playerId := playerId c |};
             games := <[cd := g']> (games st); uuids := uuids st |},
          send ready s (PGameCreated cd (trim q) (nonEmpty (trim <$> opts)))).
Proof.
  intros Hrole Hq Hopts Hne Hlen Hcode.
  destruct (valid_poll_guards q opts Hne Hlen) as (Hq0 & Hl1 & Hl2).
  unfold on_create_game. simpl. rewrite Hrole, Hq, Hopts. simpl.
  rewrite Hq0, Hl1, trimAll_strings. simpl. by rewrite Hl2, Hcode.
Qed.

Lemma broadcast_elem ready g p pl :
  pl ∈ mvalues (players g) → ready (p_socket pl) = true →
  (p_socket pl, p) ∈ broadcastToPlayers ready g p.
Proof.
  intros Hin Hr. unfold broadcastToPlayers.
  apply list_elem_of_In, in_flat_map. exists pl. split.
  - by apply list_elem_of_In.
  - unfold send. rewrite Hr. by left.
Qed.

Lemma resetPlayers_values ps :
  mvalues (resetPlayers ps) = resetPlayer <$> mvalues ps.
Proof.
  unfold mvalues, resetPlayers. induction ps as [|[k v] ps IH]; simpl; [done|].
  by f_equal.
Qed.

(** C10. A [host:update_poll] frame with a non-empty question and at
    least two options left after trimming is accepted whatever the
    state of the host's session, [lobby], [active] or [ended]: the
    question and the options are replaced, the state becomes [lobby],
    every player of the roster is kept with [hasVoted = false] and no
    [choiceIndex], and [poll:reset] goes to every player of the roster
    whose socket is writable. *)
Theorem update_poll_any_state ready draws w s c cd g m q opts phase :
  w_conns w !! s = Some c →
  role c = Some host →
  currentGame c (w_games w) = Some (cd, g) →
  state g = phase →
  as_string (prop "type" m) = Some "host:update_poll" →
  prop "question" m = Some (JStr q) →
  prop "options" m = Some (JArr (JStr <$> opts)) →
  q ≠ "" →
  2 ≤ length (nonEmpty (trim <$> opts)) →
  ∃ g' out,
    step ready draws w (EMessage s (Some m))
    = Done ({| w_games := <[cd := g']> (w_games w);
               w_conns := w_conns w; w_uuids := w_uuids w;
               w_socks := w_socks w |}, out)
    ∧ question g' = trim q
    ∧ options g' = nonEmpty (trim <$> opts)
    ∧ state g' = lobby
    ∧ mkeys (players g') = mkeys (players g)
    ∧ Forall (λ pl, hasVoted pl = false ∧ choiceIndex pl = None)
             (mvalues (players g'))
    ∧ out = send ready s (PPollUpdated (question g') (options g'))
            ++ send ready s (PPlayersUpdated (serializePlayers g'))
            ++ broadcastToPlayers ready g'
                 (PPollReset "The host is preparing a new poll. Please wait for the next question.")
    ∧ (∀ pl, pl ∈ mvalues (players g) → ready (p_socket pl) = true →
         (p_socket pl,
          PPollReset "The host is preparing a new poll. Please wait for the next question.")
         ∈ out).
Proof.
  intros Hc Hrole Hgame _ Ht Hq Hopts Hne Hlen.
  eexists _, _.
  erewrite step_message; [|done|].
  2:{ rewrite (onMessage_typed _ _ _ _ _ _ Ht). simpl.
      by apply on_update_poll_accepted. }
  rewrite world_of_games by done. split; [reflexivity|]. simpl.
  repeat (split; [first [done | apply resetPlayers_keys
                        | apply resetPlayers_cleared]|]).
  intros pl Hin Hr.
  apply elem_of_app; right. apply elem_of_app; right.
  apply (broadcast_elem ready _ _ (resetPlayer pl)); [|done].
  simpl. rewrite resetPlayers_values. by apply list_elem_of_fmap_2.
Qed.

Lemma update_poll_any_state_witness :
  let g := colors active [(2, ann true (Some 0%Q))] in
  let w := world_with g in
  let m := msg_update_poll "Best pet?" [" Cat "; "  "; "Dog"] in
  let reset :=
    PPollReset "The host is preparing a new poll. Please wait for the next question." in
  state g = active
  ∧ 2 ≤ length (nonEmpty (trim <$> [" Cat "; "  "; "Dog"]))
  ∧ ∃ g' out,
      step all_open [] w (EMessage 0 (Some m))
      = Done ({| w_games := <["123456" := g']> (w_games w);
                 w_conns := w_conns w; w_uuids := w_uuids w;
                 w_socks := w_socks w |}, out)
      ∧ question g' = trim "Best pet?"
      ∧ options g' = nonEmpty (trim <$> [" Cat "; "  "; "Dog"])
      ∧ state g' = lobby
      ∧ mkeys (players g') = mkeys (players g)
      ∧ Forall (λ pl, hasVoted pl = false ∧ choiceIndex pl = None)
               (mvalues (players g'))
      ∧ out = send all_open 0 (PPollUpdated (question g') (options g'))
              ++ send all_open 0 (PPlayersUpdated (serializePlayers g'))
              ++ broadcastToPlayers all_open g' reset
      ∧ (∀ pl, pl ∈ mvalues (players g) → all_open (p_socket pl) = true →
           (p_socket pl, reset) ∈ out).
Proof.
  intros g w m reset.
  assert (Hlen : 2 ≤ length (nonEmpty (trim <$> [" Cat "; "  "; "Dog"])))
    by (vm_compute; lia).
  split; [reflexivity|]. split; [exact Hlen|].
  apply (update_poll_any_state all_open [] w 0 host_conn "123456" g m
           "Best pet?" [" Cat "; "  "; "Dog"] active);
    first [reflexivity | discriminate | exact Hlen].
Defined.

(** ** The role of a connection *)

Ltac break_handler :=
  repeat first
    [ progress simplify_eq/=
    | match goal with
      | H : context [match ?x with _ => _ end] |- _ =>
          destruct x eqn:?
      end ].

Lemma other_handlers_keep_role ready draws s raw st st' out :
  identify_role raw = None →
  onMessage ready draws s raw st = Done (st', out) →
  role (conn st') = role (conn st).
Proof.
  intros Hid H. unfold onMessage in H.
  destruct raw as [m|]; [|by unfold reject in H; simplify_eq].
  unfold identify_role in Hid.
  destruct m; try discriminate;
    destruct (as_string _) as [t|] eqn:Ht;
    try (unfold reject in H; by simplify_eq).
  destruct (String.eqb t "identify") eqn:E1.
  { unfold on_identify, reject in H. rewrite Hid in H. by simplify_eq. }
  unfold on_create_game, on_update_poll, on_start_poll, on_end_poll,
    on_join, on_vote, reject, with_games, trimmedText, mbind, Result_bind
    in H.
  break_handler; done.
Qed.

Lemma identify_sets_role ready draws s raw st st' out r :
  identify_role raw = Some r →
  onMessage ready draws s raw st = Done (st', out) →
  role (conn st') = Some r.
Proof.
  intros Hid H. unfold identify_role in Hid.
  destruct raw as [m|]; [|done].
  destruct (as_string (prop "type" m)) as [t|] eqn:Ht; [|done].
  rewrite (onMessage_typed _ _ _ _ _ _ Ht) in H.
  destruct (String.eqb t "identify"); [|done].
  unfold on_identify in H. rewrite Hid in H. by simplify_eq.
Qed.

(** C8, as the server behaves. A frame can only change the role of the
    connection it arrives on, and only when it is an [identify] carrying
    one of the two recognised roles: such a frame is always accepted and
    the stored role becomes the role carried, replacing whichever role
    was stored before. Every other frame leaves the role as it was, and
    an [identify] with any other role is refused with an error and
    changes nothing. *)
Theorem role_follows_identify ready draws w s c raw :
  w_conns w !! s = Some c →
  (∀ w' out,
     step ready draws w (EMessage s raw) = Done (w', out) →
     (∃ c', w_conns w' !! s = Some c'
            ∧ role c' = match identify_role raw with
                        | Some r => Some r
                        | None => role c
                        end)
     ∧ (∀ s', s' ≠ s → w_conns w' !! s' = w_conns w !! s'))
  ∧ (∀ m r, raw = Some m →
            as_string (prop "type" m) = Some "identify" →
            parseRole (prop "role" m) = Some r →
            ∃ w', step ready draws w (EMessage s raw)
                  = Done (w', send ready s (PIdentified r))
                  ∧ role <$> w_conns w' !! s = Some (Some r)
                  ∧ w_games w' = w_games w)
  ∧ (∀ m, raw = Some m →
          as_string (prop "type" m) = Some "identify" →
          parseRole (prop "role" m) = None →
          step ready draws w (EMessage s raw)
          = Done (w, send ready s (PError "Unknown role specified."))).
Proof.
  intros Hc. split; [|split].
  - intros w' out Hstep. unfold step in Hstep. rewrite Hc in Hstep.
    destruct (onMessage ready draws s raw (st_of w c)) as [[st' o]| |] eqn:Hm;
      simplify_eq/=.
    split.
    + exists (conn st'). split; [apply lookup_insert_eq|].
      destruct (identify_role raw) as [r|] eqn:Hid.
      * eapply identify_sets_role; eauto.
      * by erewrite other_handlers_keep_role by eauto.
    + intros s' Hne. simpl. by rewrite lookup_insert_ne.
  - intros m r -> Ht Hr. eexists. split.
    + eapply step_message; [done|].
      rewrite (onMessage_typed _ _ _ _ _ _ Ht). simpl.
      unfold on_identify. by rewrite Hr.
    + simpl. by rewrite lookup_insert_eq.
  - intros m -> Ht Hr. apply (step_reject _ _ _ _ c); [done|].
    rewrite (onMessage_typed _ _ _ _ _ _ Ht). simpl.
    unfold on_identify. by rewrite Hr.
Qed.

Lemma role_follows_identify_witness :
  let w := world_with (colors lobby []) in
  w_conns w !! 1 = Some ann_conn
  ∧ (∃ w', step all_open [] w (EMessage 1 (Some (msg_identify "host")))
           = Done (w', [(1, PIdentified host)])
           ∧ role <$> w_conns w' !! 1 = Some (Some host)
           ∧ w_games w' = w_games w)
  ∧ step all_open [] w (EMessage 1 (Some (msg_identify "teacher")))
    = Done (w, [(1, PError "Unknown role specified.")]).
Proof.
  intros w.
  destruct (role_follows_identify all_open [] w 1 ann_conn
              (Some (msg_identify "host")) eq_refl) as (_ & Hacc & _).
  destruct (role_follows_identify all_open [] w 1 ann_conn
              (Some (msg_identify "teacher")) eq_refl) as (_ & _ & Hrej).
  split; [reflexivity|]. split.
  - exact (Hacc (msg_identify "host") host eq_refl eq_refl eq_refl).
  - exact (Hrej (msg_identify "teacher") eq_refl eq_refl eq_refl).
Defined.

(** C8, as stated, fails: a connection identified as host that sends a
    second [identify] with role [player] has its stored role replaced. *)
Lemma identify_replaces_role :
  ∃ w1 out1 w2 out2,
    run init [ev "" EConnect; ev "" (EMessage 0 (Some (msg_identify "host")))]
    = Done (w1, out1)
    ∧ role <$> w_conns w1 !! 0 = Some (Some host)
    ∧ step all_open [] w1 (EMessage 0 (Some (msg_identify "player")))
      = Done (w2, out2)
    ∧ out2 = [(0, PIdentified player)]
    ∧ role <$> w_conns w2 !! 0 = Some (Some player).
Proof.
  eexists _, _, _, _. split; [vm_compute; reflexivity|].
  split; [reflexivity|]. split; [vm_compute; reflexivity|].
  split; reflexivity.
Qed.

(** ** How one event changes the store of games *)

Arguments slice0 : simpl never.
Arguments trim : simpl never.

Lemma trimStart_idem s : trimStart (trimStart s) = trimStart s.
Proof.
  induction s as [|a r IH]; simpl; [done|].
  destruct (is_space a) eqn:E; [done|]. simpl. by rewrite E.
Qed.

Lemma trimEnd_idem s : trimEnd (trimEnd s) = trimEnd s.
Proof.
  induction s as [|a r IH]; simpl; [done|].
  destruct (trimEnd r) as [|b r'] eqn:E.
  - destruct (is_space a) eqn:Ea; simpl; [done|]. by rewrite Ea.
  - simpl in *. rewrite IH. done.
Qed.

Lemma trimStart_trimEnd s : trimStart (trimEnd s) = trimEnd (trimStart s).
Proof.
  induction s as [|a r IH]; simpl; [done|].
  destruct (is_space a) eqn:Ea.
  - destruct (trimEnd r) as [|b r'] eqn:E; simpl.
    + by rewrite <- IH.
    + rewrite Ea. by rewrite <- IH.
  - simpl. destruct (trimEnd r); simpl; by rewrite Ea.
Qed.

Lemma trim_idem s : trim (trim s) = trim s.
Proof.
  unfold trim. rewrite (trimStart_trimEnd (trimStart s)).
  by rewrite trimStart_idem, trimEnd_idem.
Qed.

Lemma trimAll_Done l t :
  trimAll l = Done t → Forall (λ o, trim o = o) t ∧ length t = length l.
Proof.
  revert t. induction l as [|j l IH]; simpl; intros t H.
  - by simplify_eq.
  - destruct j; try discriminate.
    destruct (trimAll l) as [r| |]; try discriminate. simplify_eq/=.
    destruct (IH r eq_refl) as [IH1 IH2]. split.
    + constructor; [apply trim_idem|done].
    + simpl. by rewrite IH2.
Qed.

Lemma nonEmpty_good l t :
  trimAll l = Done t →
  (length (nonEmpty t) <? 2) = false →
  good_options (nonEmpty t).
Proof.
  intros Ht Hlen. apply Nat.ltb_ge in Hlen. split; [done|].
  apply trimAll_Done in Ht as [Ht _]. clear Hlen. unfold nonEmpty.
  induction Ht as [|o t Ho Ht IH]; [constructor|].
  rewrite filter_cons. case_decide; [|done].
  by constructor.
Qed.

Lemma generateGameCode_fresh gs draws cd :
  generateGameCode gs draws = Done cd → gs !! cd = None ∧ cd ∈ draws.
Proof.
  induction draws as [|d draws IH]; simpl; [done|].
  destruct (gs !! d) eqn:E.
  - intros H. destruct (IH H). split; [done|]. by right.
  - intros [= <-]. split; [done|]. left.
Qed.

Lemma validChoice_Some v g q :
  validChoice v g = Some q →
  v = Some (JNum q) ∧ in_range q (length (options g)).
Proof.
  unfold validChoice, in_range.
  destruct v as [[| |q'| | |]|]; try discriminate.
  destruct (Qle_bool 0 q') eqn:E1; simpl; [|discriminate].
  destruct (Qle_bool (inject_Z _) q') eqn:E2; [discriminate|]. intros [= <-].
  split; [done|]. split.
  - by apply Qle_bool_iff.
  - apply Qnot_le_lt. intros Hle. apply Qle_bool_iff in Hle. congruence.
Qed.

Lemma lookupGame_Some gs v cd g :
  lookupGame gs v = Some (cd, g) → v = Some (JStr cd) ∧ gs !! cd = Some g.
Proof.
  unfold lookupGame, as_string. destruct v as [[]|]; try discriminate.
  destruct (gs !! s) eqn:E; simpl; [|discriminate]. by intros [= <- <-].
Qed.

Lemma ownPlayer_Some c g pid pl :
  ownPlayer c g = Some (pid, pl) →
  playerId c = Some pid ∧ mget pid (players g) = Some pl.
Proof.
  unfold ownPlayer. destruct (playerId c) as [p|]; simpl; [|done].
  destruct (mget p (players g)) eqn:E; simpl; [|done]. by intros [= <- <-].
Qed.

Ltac use_guards :=
  repeat match goal with
    | H : negb _ = false |- _ => apply negb_false_iff in H
    | H : negb _ = true |- _ => apply negb_true_iff in H
    | H : bool_decide _ = true |- _ => apply bool_decide_eq_true in H
    | H : bool_decide _ = false |- _ => apply bool_decide_eq_false in H
    | H : currentGame _ _ = Some _ |- _ =>
        apply currentGame_Some in H as (? & ? & ?)
    | H : lookupGame _ _ = Some _ |- _ => apply lookupGame_Some in H as [? ?]
    | H : ownPlayer _ _ = Some _ |- _ => apply ownPlayer_Some in H as [? ?]
    | H : generateGameCode _ _ = Done _ |- _ =>
        apply generateGameCode_fresh in H as [? ?]
    | H : validChoice _ _ = Some _ |- _ => apply validChoice_Some in H as [? ?]
    end.

Lemma onMessage_change ready draws s raw st st' out :
  onMessage ready draws s raw st = Done (st', out) →
  change (uuids st) (uuids st') s (games st) (games st').
Proof.
  intros H. unfold onMessage in H.
  destruct raw as [m|]; [|unfold reject in H; simplify_eq; by left].
  destruct m; try discriminate;
    destruct (as_string _) as [t|] eqn:Ht;
    try (unfold reject in H; simplify_eq; by left).
  unfold on_identify, on_create_game, on_update_poll, on_start_poll,
    on_end_poll, on_join, on_vote, reject, with_games, with_conn,
    trimmedText, mbind, Result_bind in H.
  break_handler; try (by left).
  all: right; left; eexists _, _; (split; [reflexivity|]).
  all: use_guards.
  all: match goal with H : games _ !! _ = _ |- _ => rewrite H end.
  all: solve [econstructor; simpl; eauto using nonEmpty_good].
Qed.

Lemma onClose_change ready s st st' out :
  onClose ready st = (st', out) →
  change (uuids st) (uuids st') s (games st) (games st').
Proof.
  unfold onClose, destroyGame, with_games. intros H.
  destruct (role (conn st)) as [[]|] eqn:Hr.
  - destruct (currentGameCode (conn st)) as [cd|] eqn:Hcd;
      [|simplify_eq/=; by left].
    destruct (truthy_str cd); [|simplify_eq/=; by left].
    destruct (games st !! cd) as [g|] eqn:Hg; simplify_eq/=; [|by left].
    right; right. by exists cd, g.
  - destruct (currentGame (conn st) (games st)) as [[cd g]|] eqn:Hg;
      [|simplify_eq/=; by left].
    destruct (playerId (conn st)) as [pid|]; simplify_eq/=; [|by left].
    right; left. eexists _, _. split; [reflexivity|].
    apply currentGame_Some in Hg as (_ & _ & ->).
    by eapply ev_leave.
  - destruct (currentGameCode (conn st)); simplify_eq/=; by left.
Qed.

Lemma step_change ready draws w ev w' out :
  step ready draws w ev = Done (w', out) →
  ∃ s, change (w_uuids w) (w_uuids w') s (w_games w) (w_games w').
Proof.
  destruct ev as [|s raw|s]; simpl; intros H.
  - simplify_eq/=. exists 0. left. split; [done|lia].
  - exists s. destruct (w_conns w !! s) as [c|]; [|simplify_eq; by left].
    destruct (onMessage _ _ _ _ _) as [[st' o]| |] eqn:Hm; simplify_eq/=.
    apply onMessage_change in Hm. exact Hm.
  - exists s. destruct (w_conns w !! s) as [c|]; [|simplify_eq; by left].
    destruct (onClose _ _) as [st' o] eqn:Hm. simplify_eq.
    by apply (onClose_change _ s) in Hm.
Qed.

(** ** Facts about the roster as a map *)

Section JsMapFacts.
Context {K V : Type} `{EqDecision K}.
Implicit Types (m : list (K * V)) (k : K) (v : V).

Lemma mget_Some_in k v m : mget k m = Some v → (k, v) ∈ m.
Proof.
  induction m as [|[k' v'] m IH]; simpl; [done|].
  case_decide; [intros [= ->]; subst; left|intros; right; auto].
Qed.

Lemma mget_None_keys k m : mget k m = None ↔ k ∉ mkeys m.
Proof.
  unfold mkeys. induction m as [|[k' v'] m IH]; csimpl.
  - split; [intros _; apply not_elem_of_nil|done].
  - rewrite not_elem_of_cons. case_decide.
    + split; [done|]. by intros [? _].
    + rewrite IH. split; [by intros ?|by intros [_ ?]].
Qed.

Lemma mset_fresh k v m : k ∉ mkeys m → mset k v m = m ++ [(k, v)].
Proof.
  unfold mkeys. induction m as [|[k' v'] m IH]; csimpl; [done|].
  rewrite not_elem_of_cons. intros [Hne Hnin].
  case_decide; [done|]. by rewrite IH.
Qed.

Lemma mkeys_mset_in k v m : k ∈ mkeys m → mkeys (mset k v m) = mkeys m.
Proof.
  unfold mkeys. induction m as [|[k' v'] m IH]; csimpl.
  - by intros ?%elem_of_nil.
  - case_decide; [by subst|]. intros [?|?]%elem_of_cons; [done|].
    csimpl. by rewrite IH.
Qed.

Lemma mset_Forall (P : K * V → Prop) k v m :
  P (k, v) → Forall P m → Forall P (mset k v m).
Proof.
  intros Hkv. induction 1 as [|[k' v'] m Hx Hm IH]; simpl.
  - by constructor.
  - case_decide; by constructor.
Qed.

Lemma mdelete_Forall (P : K * V → Prop) k m :
  Forall P m → Forall P (mdelete k m).
Proof.
  induction 1 as [|[k' v'] m Hx Hm IH]; simpl; [constructor|].
  case_decide; [done|by constructor].
Qed.

Lemma mkeys_mdelete k m k' : k' ∈ mkeys (mdelete k m) → k' ∈ mkeys m.
Proof.
  unfold mkeys. induction m as [|[k0 v0] m IH]; csimpl; [done|].
  case_decide; [by right|]. csimpl.
  intros [->|?]%elem_of_cons; [by left|right; auto].
Qed.

Lemma mdelete_NoDup k m : NoDup (mkeys m) → NoDup (mkeys (mdelete k m)).
Proof.
  induction m as [|[k0 v0] m IH]; [done|]. unfold mkeys in *. csimpl.
  intros [Hnin Hnd]%NoDup_cons. case_decide; [done|]. csimpl.
  apply NoDup_cons. split; [|auto].
  intros Hin. apply Hnin. by apply mkeys_mdelete in Hin.
Qed.

Lemma mset_NoDup k v m : NoDup (mkeys m) → NoDup (mkeys (mset k v m)).
Proof.
  intros Hnd. destruct (decide (k ∈ mkeys m)) as [Hin|Hnin].
  - by rewrite mkeys_mset_in.
  - rewrite (mset_fresh _ _ _ Hnin). unfold mkeys in *. rewrite fmap_app.
    apply NoDup_app. split; [done|]. split; [|apply NoDup_singleton].
    csimpl. intros x Hx ->%list_elem_of_singleton. done.
Qed.

Lemma mkeys_mset k v m k' :
  k' ∈ mkeys (mset k v m) → k' ∈ mkeys m ∨ k' = k.
Proof.
  destruct (decide (k ∈ mkeys m)) as [Hin|Hnin].
  - rewrite mkeys_mset_in by done. by left.
  - rewrite (mset_fresh _ _ _ Hnin). unfold mkeys. rewrite fmap_app.
    intros [?|?%list_elem_of_singleton]%elem_of_app; [by left|by right].
Qed.
End JsMapFacts.

(** ** What holds in every world the server can be in *)

Lemma player_ok_mono u u' n e : u ≤ u' → player_ok u n e → player_ok u' n e.
Proof. unfold player_ok. intros Hle (? & ? & ? & ?). split; [lia|done]. Qed.

Lemma game_ok_mono u u' g : u ≤ u' → game_ok u g → game_ok u' g.
Proof.
  intros Hle (Ho & Hnd & Hps). split; [done|]. split; [done|].
  eapply Forall_impl; [exact Hps|]. intros e. by apply player_ok_mono.
Qed.

Lemma resetPlayers_ok u n n' ps :
  Forall (player_ok u n) ps → Forall (player_ok u n') (resetPlayers ps).
Proof.
  unfold resetPlayers. intros H. apply Forall_fmap.
  eapply Forall_impl; [exact H|]. intros [k pl] (H1 & H2 & _ & _).
  unfold player_ok; simpl in *. split; [done|]. split; [done|].
  split; [|done]. split; [done|]. by intros [? ?].
Qed.

Lemma evolves_le u u' s old g' : evolves u u' s old g' → u ≤ u'.
Proof. destruct 1; lia. Qed.

Lemma evolves_ok u u' s old g' :
  evolves u u' s old g' →
  (∀ g, old = Some g → game_ok u g) →
  game_ok u' g'.
Proof.
  intros Hev Hold.
  destruct Hev as [g' ? Hopts Hps|g g' ? Hopts Hps|g g' ? Hopts Hps
                  |g g' ? Hopts Hps|g g' pl ? Hopts Hps Hid
                  |g g' pid pl q ? Hopts Hget Hnv Hq Hps|g g' pid ? Hopts Hps];
    subst u'; unfold game_ok; rewrite ?Hps, ?Hopts;
    try (destruct (Hold g eq_refl) as (Ho & Hnd & Hall)).
  - split; [done|]. split; constructor.
  - split; [done|]. split; [by rewrite resetPlayers_keys|].
    by eapply resetPlayers_ok.
  - split; [done|]. split; [by rewrite resetPlayers_keys|].
    by eapply resetPlayers_ok.
  - done.
  - split; [done|]. split; [by apply mset_NoDup|].
    apply mset_Forall.
    + unfold player_ok; simpl. split; [lia|]. split; [done|].
      match goal with H : hasVoted pl = false |- _ => rewrite H end.
      match goal with H : choiceIndex pl = None |- _ => rewrite H end.
      split; [|done]. split; [done|]. by intros [? ?].
    + eapply Forall_impl; [exact Hall|]. intros e. apply player_ok_mono. lia.
  - split; [done|]. split; [by apply mset_NoDup|].
    apply mset_Forall; [|done].
    apply mget_Some_in in Hget.
    rewrite Forall_forall in Hall. destruct (Hall _ Hget) as (Hlt & Hkey & _).
    unfold player_ok; simpl in *. split; [done|]. split; [done|].
    split; [split; [by eexists|done]|]. by intros ? [= <-].
  - split; [done|]. split; [by apply mdelete_NoDup|by apply mdelete_Forall].
Qed.

Lemma evolves_keys u u' s old g' pid :
  evolves u u' s old g' →
  pid ∈ mkeys (players g') →
  (∃ g, old = Some g ∧ pid ∈ mkeys (players g)) ∨ pid = u.
Proof.
  intros Hev Hin.
  destruct Hev as [g' ? Hopts Hps|g g' ? Hopts Hps|g g' ? Hopts Hps
                  |g g' ? Hopts Hps|g g' pl ? Hopts Hps Hid
                  |g g' pid' pl q ? Hopts Hget Hnv Hq Hps|g g' pid' ? Hopts Hps];
    rewrite Hps in Hin.
  - by apply elem_of_nil in Hin.
  - rewrite resetPlayers_keys in Hin. left. by exists g.
  - rewrite resetPlayers_keys in Hin. left. by exists g.
  - left. by exists g.
  - apply mkeys_mset in Hin as [?|?]; [left; by exists g|by right].
  - left. exists g. split; [done|].
    apply mkeys_mset in Hin as [?| ->]; [done|].
    apply mget_Some_in in Hget. unfold mkeys.
    by apply (list_elem_of_fmap_2 fst) in Hget.
  - left. exists g. split; [done|]. by eapply mkeys_mdelete.
Qed.

Lemma change_ok u u' s w w' :
  w_uuids w = u → w_uuids w' = u' →
  change u u' s (w_games w) (w_games w') →
  world_ok w → world_ok w'.
Proof.
  intros <- <- Hch [Hok Hdisj].
  destruct Hch as [[Hgs Hle]|[(cd & g' & Hgs & Hev)|(cd & g & Hg & Hgs & Hu)]];
    rewrite ?Hgs.
  - split; unfold world_ok; rewrite Hgs; [|done].
    intros cd g Hg. eapply game_ok_mono; eauto.
  - assert (Hle := evolves_le _ _ _ _ _ Hev).
    assert (Hold : ∀ k g pid, w_games w !! k = Some g →
                     pid ∈ mkeys (players g) → pid < w_uuids w).
    { intros k g pid Hg Hin. destruct (Hok _ _ Hg) as (_ & _ & Hall).
      unfold mkeys in Hin. apply list_elem_of_fmap in Hin as ([k' pl] & -> & He).
      rewrite Forall_forall in Hall. by destruct (Hall _ He). }
    split; rewrite Hgs.
    + intros k g. rewrite lookup_insert. case_decide.
      * intros [= <-]. subst k. eapply evolves_ok; [exact Hev|].
        intros g0 Hg0. eapply Hok. by rewrite <- Hg0.
      * intros Hg. eapply game_ok_mono; eauto.
    + intros cd1 cd2 g1 g2 pid. rewrite !lookup_insert.
      repeat case_decide; subst; intros H1 H2 Hin1 Hin2; simplify_eq; [done|..].
      * destruct (evolves_keys _ _ _ _ _ _ Hev Hin1) as [(g & Hg & Hin)| ->].
        -- eapply Hdisj; eauto.
        -- eapply Hold in Hin2; [lia|done].
      * destruct (evolves_keys _ _ _ _ _ _ Hev Hin2) as [(g & Hg & Hin)| ->].
        -- eapply Hdisj; eauto.
        -- eapply Hold in Hin1; [lia|done].
      * eapply Hdisj; eauto.
  - split; rewrite Hgs, ?Hu.
    + intros k g0 [_ Hg0]%lookup_delete_Some. eauto.
    + intros cd1 cd2 g1 g2 pid [_ H1]%lookup_delete_Some
        [_ H2]%lookup_delete_Some. eauto.
Qed.

Lemma reachable_ok w : reachable w → world_ok w.
Proof.
  induction 1 as [|ready draws w ev w' out Hr IH Hstep].
  - split; simpl; intros *; by rewrite lookup_empty.
  - destruct (step_change _ _ _ _ _ _ Hstep) as [s Hch].
    by eapply change_ok.
Qed.

Lemma run_reachable w evs w' out :
  reachable w → run w evs = Done (w', out) → reachable w'.
Proof.
  revert w out. induction evs as [|[[ready draws] e] evs IH]; simpl;
    intros w out Hr H.
  - by simplify_eq.
  - destruct (step ready draws w e) as [[w1 o1]| |] eqn:Hs; try discriminate.
    simpl in H.
    destruct (run w1 evs) as [[w2 o2]| |] eqn:Hrun; try discriminate.
    simplify_eq/=. eapply IH; [|exact Hrun]. by eapply reachable_step.
Qed.

Lemma scenario_reachable :
  reachable (world_with (colors ended [(2, ann true (Some 0%Q))])).
Proof.
  destruct scenario_runs as (out & Hrun & _).
  exact (run_reachable _ _ _ _ reachable_init Hrun).
Qed.

(** ** The options of a session *)

(** The cut to six options is made by the host page, before sending. *)
Lemma sanitizeOptions_at_most_six opts :
  length (sanitizeOptions opts) ≤ MAX_OPTIONS.
Proof. unfold sanitizeOptions. rewrite length_take. lia. Qed.


(** C2, as the server behaves. In every world the server can be in,
    every session has at least two options, each of them non-empty and
    trimmed. There is no upper bound: an accepted [host:create_game] or
    [host:update_poll] stores all the options that are left after
    trimming and dropping the empty ones, in order, however many. *)
Theorem options_at_least_two_none_dropped w :
  reachable w →
  (∀ cd g, w_games w !! cd = Some g →
     2 ≤ length (options g)
     ∧ Forall (λ o, o ≠ "" ∧ trim o = o) (options g))
  ∧ (∀ ready draws s c m q opts cd,
       w_conns w !! s = Some c → role c = Some host →
       as_string (prop "type" m) = Some "host:create_game" →
       prop "question" m = Some (JStr q) →
       prop "options" m = Some (JArr (JStr <$> opts)) →
       q ≠ "" → 2 ≤ length (nonEmpty (trim <$> opts)) →
       generateGameCode (w_games w) draws = Done cd →
       ∃ w' out g',
         step ready draws w (EMessage s (Some m)) = Done (w', out)
         ∧ w_games w' !! cd = Some g'
         ∧ options g' = nonEmpty (trim <$> opts))
  ∧ (∀ ready draws s c m q opts cd g,
       w_conns w !! s = Some c → role c = Some host →
       currentGame c (w_games w) = Some (cd, g) →
       as_string (prop "type" m) = Some "host:update_poll" →
       prop "question" m = Some (JStr q) →
       prop "options" m = Some (JArr (JStr <$> opts)) →
       q ≠ "" → 2 ≤ length (nonEmpty (trim <$> opts)) →
       ∃ w' out g',
         step ready draws w (EMessage s (Some m)) = Done (w', out)
         ∧ w_games w' !! cd = Some g'
         ∧ options g' = nonEmpty (trim <$> opts)).
Proof.
  intros Hr. split; [|split].
  - intros cd g Hg. apply reachable_ok in Hr as [Hok _].
    by destruct (Hok _ _ Hg) as (Ho & _).
  - intros ready draws s c m q opts cd Hc Hrole Ht Hq Hopts Hne Hlen Hcode.
    eexists _, _, _. split.
    + eapply step_message; [done|].
      rewrite (onMessage_typed _ _ _ _ _ _ Ht). simpl.
      by apply on_create_game_accepted.
    + simpl. by rewrite lookup_insert_eq.
  - intros ready draws s c m q opts cd g Hc Hrole Hgame Ht Hq Hopts Hne Hlen.
    eexists _, _, _. split.
    + eapply step_message; [done|].
      rewrite (onMessage_typed _ _ _ _ _ _ Ht). simpl.
      by apply on_update_poll_accepted.
    + simpl. by rewrite lookup_insert_eq.
Qed.

Lemma options_at_least_two_none_dropped_witness :
  let w := world_with (colors ended [(2, ann true (Some 0%Q))]) in
  reachable w
  ∧ (∃ g, w_games w !! "123456" = Some g
          ∧ 2 ≤ length (options g)
          ∧ Forall (λ o, o ≠ "" ∧ trim o = o) (options g))
  ∧ (∃ w' out g',
       step all_open [] w (EMessage 0 (Some (msg_update_poll "Letter?" seven)))
       = Done (w', out)
       ∧ w_games w' !! "123456" = Some g'
       ∧ options g' = nonEmpty (trim <$> seven)).
Proof.
  intros w.
  destruct (options_at_least_two_none_dropped w scenario_reachable)
    as (Hinv & _ & Hupd).
  split; [exact scenario_reachable|]. split.
  - exists (colors ended [(2, ann true (Some 0%Q))]).
    split; [reflexivity|]. by apply (Hinv "123456").
  - apply (Hupd all_open [] 0 host_conn (msg_update_poll "Letter?" seven)
             "Letter?" seven "123456"
             (colors ended [(2, ann true (Some 0%Q))]));
      first [reflexivity | discriminate | vm_compute; lia].
Defined.

(** C2, as stated, fails: a host that creates a poll with seven options
    gets a session with seven options. *)
Lemma seven_options_stored :
  ∃ w out g,
    run init seven_trace = Done (w, out)
    ∧ reachable w
    ∧ w_games w !! "123456" = Some g
    ∧ options g = seven
    ∧ ¬ length (options g) ≤ 6.
Proof.
  destruct (run init seven_trace) as [[w out]| |] eqn:Hrun;
    [|vm_compute in Hrun; discriminate..].
  assert (Hg : w_games w !! "123456"
               = Some {| code := "123456"; hostId := 0; hostSocket := 0;
                         question := "Letter?"; options := seven;
                         players := []; state := lobby |}).
  { vm_compute in Hrun. injection Hrun as <- _. reflexivity. }
  eexists w, out, _. split; [reflexivity|].
  split; [exact (run_reachable _ _ _ _ reachable_init Hrun)|].
  split; [exact Hg|]. split; [reflexivity|]. simpl. lia.
Qed.

(** ** Players and sessions *)

Lemma on_join_unknown_code ready s m st :
  lookupGame (games st) (prop "code" m) = None →
  ∃ msg, on_join ready s m st = reject ready s st msg.
Proof.
  intros Hnone. unfold on_join.
  destruct (negb (bool_decide _)); [by eexists|].
  destruct (negb (truthy _) || negb (truthy _)); [by eexists|].
  rewrite Hnone. by eexists.
Qed.

Lemma roster_ids_below w cd g pid :
  world_ok w → w_games w !! cd = Some g →
  pid ∈ mkeys (players g) → pid < w_uuids w.
Proof.
  intros [Hok _] Hg Hin. destruct (Hok _ _ Hg) as (_ & _ & Hall).
  unfold mkeys in Hin. apply list_elem_of_fmap in Hin as ([k' pl] & -> & He).
  rewrite Forall_forall in Hall. by destruct (Hall _ He).
Qed.

(** C9, as the server behaves. In every world the server can be in, a
    player identifier occurs in the roster of one session only, once,
    and names the entry stored under it, so every Player entry belongs
    to exactly one session. A [player:join] whose code names no live
    session is answered with an error and changes nothing. Every
    accepted [player:join] appends one new entry, under an identifier
    not used before, to the roster of the session it names, whether or
    not the connection already has entries there or elsewhere. *)
Theorem players_belong_to_one_session w :
  reachable w →
  (∀ cd1 cd2 g1 g2 pid,
     w_games w !! cd1 = Some g1 → w_games w !! cd2 = Some g2 →
     pid ∈ mkeys (players g1) → pid ∈ mkeys (players g2) → cd1 = cd2)
  ∧ (∀ cd g, w_games w !! cd = Some g →
       NoDup (mkeys (players g))
       ∧ ∀ pid pl, (pid, pl) ∈ players g → p_id pl = pid)
  ∧ (∀ ready draws s c m,
       w_conns w !! s = Some c →
       as_string (prop "type" m) = Some "player:join" →
       lookupGame (w_games w) (prop "code" m) = None →
       ∃ msg, step ready draws w (EMessage s (Some m))
              = Done (w, send ready s (PError msg)))
  ∧ (∀ ready draws s c m cd name g,
       w_conns w !! s = Some c → role c = Some player →
       as_string (prop "type" m) = Some "player:join" →
       prop "code" m = Some (JStr cd) → prop "name" m = Some (JStr name) →
       cd ≠ "" → name ≠ "" →
       w_games w !! cd = Some g →
       ∃ w' out g' pl,
         step ready draws w (EMessage s (Some m)) = Done (w', out)
         ∧ w_games w' = <[cd := g']> (w_games w)
         ∧ players g' = players g ++ [(w_uuids w, pl)]
         ∧ (w_uuids w ∉ mkeys (players g))
         ∧ p_socket pl = s
         ∧ hasVoted pl = false ∧ choiceIndex pl = None).
Proof.
  intros Hr. apply reachable_ok in Hr as Hw. destruct Hw as [Hok Hdisj].
  split; [exact Hdisj|]. split; [|split].
  - intros cd g Hg. destruct (Hok _ _ Hg) as (_ & Hnd & Hall).
    split; [done|]. intros pid pl Hin.
    rewrite Forall_forall in Hall. by destruct (Hall _ Hin) as (_ & ? & _).
  - intros ready draws s c m Hc Ht Hnone.
    destruct (on_join_unknown_code ready s m (st_of w c) Hnone) as [msg Hj].
    exists msg. apply (step_reject _ _ _ _ c); [done|].
    by rewrite (onMessage_typed _ _ _ _ _ _ Ht).
  - intros ready draws s c m cd name g Hc Hrole Ht Hcode Hname Hcd Hn Hg.
    assert (Hfresh : w_uuids w ∉ mkeys (players g)).
    { intros Hin.
      assert (w_uuids w < w_uuids w); [|lia].
      eapply roster_ids_below; [split; eassumption|exact Hg|exact Hin]. }
    eexists _, _, _, _. split.
    + eapply step_message; [done|].
      rewrite (onMessage_typed _ _ _ _ _ _ Ht). simpl.
      unfold on_join, lookupGame. simpl.
      rewrite Hrole, Hcode, Hname. simpl. rewrite Hg. simpl.
      apply String.eqb_neq in Hcd, Hn. rewrite Hcd, Hn. simpl. reflexivity.
    + simpl. split; [done|]. split; [by apply mset_fresh|]. done.
Qed.

Lemma players_belong_to_one_session_witness :
  let g := colors ended [(2, ann true (Some 0%Q))] in
  let w := world_with g in
  reachable w
  ∧ NoDup (mkeys (players g))
  ∧ (∃ msg, step all_open [] w (EMessage 1 (Some (msg_join "000000" "Bob")))
            = Done (w, send all_open 1 (PError msg)))
  ∧ (∃ w' out g' pl,
       step all_open [] w (EMessage 1 (Some (msg_join "123456" "Bob")))
       = Done (w', out)
       ∧ w_games w' = <["123456" := g']> (w_games w)
       ∧ players g' = players g ++ [(3, pl)]
       ∧ (3 ∉ mkeys (players g))
       ∧ p_socket pl = 1
       ∧ hasVoted pl = false ∧ choiceIndex pl = None).
Proof.
  intros g w.
  destruct (players_belong_to_one_session w scenario_reachable)
    as (_ & Hroster & Hunknown & Hjoin).
  split; [exact scenario_reachable|]. split; [|split].
  - by apply (Hroster "123456" g).
  - by apply (Hunknown all_open [] 1 ann_conn (msg_join "000000" "Bob")).
  - by apply (Hjoin all_open [] 1 ann_conn (msg_join "123456" "Bob")
                "123456" "Bob" g).
Defined.

(** C9, as stated, fails: a player connection that joins twice has two
    Player entries in the roster, both on its socket. *)
Lemma one_connection_two_entries :
  ∃ w out,
    run init rejoin_trace = Done (w, out)
    ∧ reachable w
    ∧ players <$> w_games w !! "123456"
      = Some [(2, ann false None);
              (3, {| p_id := 3; p_name := "Ann"; p_socket := 1;
                     hasVoted := false; choiceIndex := None |})]
    ∧ p_socket (ann false None) = 1.
Proof.
  destruct (run init rejoin_trace) as [[w out]| |] eqn:Hrun;
    [|vm_compute in Hrun; discriminate..].
  exists w, out. split; [reflexivity|].
  split; [exact (run_reachable _ _ _ _ reachable_init Hrun)|].
  split; [|reflexivity].
  vm_compute in Hrun. injection Hrun as <- _. reflexivity.
Qed.

(** ** Voting twice, on one connection *)

(** C6, as stated, fails: the test is made on the roster entry the
    connection's player identifier names, and a join gives the
    connection a new entry. In one round, without the host starting
    another, the connection of socket 1 votes 0, joins again and votes
    1: both votes are accepted and acknowledged, no error is sent, both
    entries are marked as voted and the tally goes from one vote to
    two. *)
Lemma same_connection_votes_twice :
  ∃ w out g,
    run init revote_trace = Done (w, out)
    ∧ reachable w
    ∧ w_games w !! "123456" = Some g
    ∧ state g = active
    ∧ players g
      = [(2, ann true (Some 0%Q));
         (3, {| p_id := 3; p_name := "Ann"; p_socket := 1;
                hasVoted := true; choiceIndex := Some 1%Q |})]
    ∧ drop 8 out
      = [(1, PVoted 0%Q);
         (0, PPlayersUpdated [(2, "Ann", true)]);
         (0, PPollProgress [Some 1; Some 0]);
         (1, PJoined "123456" (Some "Pick a color") (Some ["Red"; "Blue"]));
         (0, PPlayersUpdated [(2, "Ann", true); (3, "Ann", false)]);
         (1, PPollStart "Pick a color" ["Red"; "Blue"]);
         (1, PVoted 1%Q);
         (0, PPlayersUpdated [(2, "Ann", true); (3, "Ann", true)]);
         (0, PPollProgress [Some 1; Some 1])]
    ∧ Forall (λ d : Delivery, ∀ msg, d.2 ≠ PError msg) out.
Proof.
  destruct (run init revote_trace) as [[w out]| |] eqn:Hrun;
    [|vm_compute in Hrun; discriminate..].
  exists w, out.
  assert (Hr : reachable w)
    by exact (run_reachable _ _ _ _ reachable_init Hrun).
  vm_compute in Hrun. injection Hrun as <- <-.
  eexists. split; [reflexivity|]. split; [exact Hr|].
  split; [reflexivity|]. split; [reflexivity|].
  split; [reflexivity|]. split; [reflexivity|].
  repeat constructor; discriminate.
Qed.

(** ** The host goes away *)

Lemma broadcast_filter ready g p :
  broadcastToPlayers ready g p
  = (λ pl, (p_socket pl, p))
      <$> filter (λ pl, ready (p_socket pl) = true) (mvalues (players g)).
Proof.
  unfold broadcastToPlayers. induction (mvalues (players g)) as [|pl l IH];
    [done|].
  simpl. rewrite filter_cons, IH. unfold send.
  destruct (ready (p_socket pl)) eqn:E.
  - by rewrite decide_True.
  - by rewrite decide_False.
Qed.

Lemma deliveries_to_absent (ready : Sock → bool) (p : Payload) t
    (l : list Player) :
  t ∉ p_socket <$> l →
  filter (λ d : Delivery, d.1 = t)
    ((λ pl, (p_socket pl, p)) <$> filter (λ pl, ready (p_socket pl) = true) l)
  = [].
Proof.
  induction l as [|x l IH]; [done|]. csimpl.
  rewrite not_elem_of_cons. intros [Hne Hnin].
  rewrite filter_cons. case_decide; [|by apply IH].
  csimpl. rewrite filter_cons. simpl. rewrite decide_False by done.
  by apply IH.
Qed.

Lemma deliveries_to_one (ready : Sock → bool) (p : Payload) pl
    (l : list Player) :
  NoDup (p_socket <$> l) → pl ∈ l → ready (p_socket pl) = true →
  length (filter (λ d : Delivery, d.1 = p_socket pl)
            ((λ pl, (p_socket pl, p))
               <$> filter (λ pl, ready (p_socket pl) = true) l))
  = 1.
Proof.
  induction l as [|x l IH]; csimpl.
  - by intros _ ?%elem_of_nil.
  - intros [Hnin Hnd]%NoDup_cons [->|Hin]%elem_of_cons Hr.
    + rewrite filter_cons, decide_True by done. csimpl.
      rewrite filter_cons. simpl. rewrite decide_True by done.
      by rewrite deliveries_to_absent.
    + assert (Hne : p_socket x ≠ p_socket pl).
      { intros Heq. apply Hnin. rewrite Heq. by apply list_elem_of_fmap_2. }
      rewrite filter_cons. case_decide; [|by apply IH].
      csimpl. rewrite filter_cons. simpl. rewrite decide_False by done.
      by apply IH.
Qed.

(** C4, as the server behaves. When a connection whose stored role is
    host closes and the session named by its current game code is still
    live, that session is removed from the store, and with it its whole
    roster; every session under another code stays as it is. The
    current game code is that of the session the connection created or
    joined most recently, whichever came last, so the session need not
    be one the connection created. [game:ended] is delivered once for
    every entry of the roster, as it stood when the connection closed,
    whose socket is writable, and to nobody else. A player connection
    with a single entry in the roster therefore receives exactly one
    [game:ended]. *)
Theorem host_close_ends_current_session ready draws w s c cd g :
  w_conns w !! s = Some c →
  role c = Some host →
  currentGame c (w_games w) = Some (cd, g) →
  ∃ w' out,
    step ready draws w (EClose s) = Done (w', out)
    ∧ w_games w' = delete cd (w_games w)
    ∧ w_games w' !! cd = None
    ∧ (∀ cd', cd' ≠ cd → w_games w' !! cd' = w_games w !! cd')
    ∧ out = (λ pl, (p_socket pl,
                    PGameEnded "The host has disconnected. The poll has ended."))
              <$> filter (λ pl, ready (p_socket pl) = true)
                         (mvalues (players g))
    ∧ (NoDup (p_socket <$> mvalues (players g)) →
       ∀ pl, pl ∈ mvalues (players g) → ready (p_socket pl) = true →
             length (filter (λ d : Delivery, d.1 = p_socket pl) out) = 1).
Proof.
  intros Hc Hrole Hgame.
  apply currentGame_Some in Hgame as (Hcd & Hne & Hg).
  assert (Htr : truthy_str cd = true).
  { unfold truthy_str. by destruct (String.eqb_spec cd ""). }
  eexists _, _. split.
  { unfold step. rewrite Hc. unfold onClose, destroyGame, currentGame. simpl.
    rewrite Hrole, Hcd, Htr, Hg. simpl. rewrite app_nil_r. reflexivity. }
  simpl. split; [done|]. split; [apply lookup_delete_eq|].
  split; [by intros cd' Hne'; apply lookup_delete_ne|].
  split; [apply broadcast_filter|].
  intros Hnd pl Hin Hr. rewrite broadcast_filter.
  by apply deliveries_to_one.
Qed.

Lemma host_close_ends_current_session_witness :
  let g := colors active [(2, ann true (Some 0%Q))] in
  let w := world_with g in
  currentGame host_conn (w_games w) = Some ("123456", g)
  ∧ ∃ w' out,
      step all_open [] w (EClose 0) = Done (w', out)
      ∧ w_games w' = delete "123456" (w_games w)
      ∧ w_games w' !! "123456" = None
      ∧ (∀ cd', cd' ≠ "123456" → w_games w' !! cd' = w_games w !! cd')
      ∧ out = [(1, PGameEnded "The host has disconnected. The poll has ended.")]
      ∧ (NoDup [1] →
         ∀ pl, pl ∈ mvalues (players g) → all_open (p_socket pl) = true →
               length (filter (λ d : Delivery, d.1 = p_socket pl) out) = 1).
Proof.
  intros g w. split; [reflexivity|].
  exact (host_close_ends_current_session all_open [] w 0 host_conn
           "123456" g eq_refl eq_refl eq_refl).
Defined.

(** C4, as stated, fails: a host that creates a second session and then
    disconnects leaves its first session in the store, and the player
    on its roster, still connected, is told nothing. *)
Lemma earlier_session_survives_host :
  ∃ w out g,
    run init two_sessions_trace = Done (w, out)
    ∧ w_games w !! "111111" = Some g
    ∧ hostSocket g = 0
    ∧ w_conns w !! 0 = None
    ∧ mkeys (players g) = [2]
    ∧ Forall (λ d : Delivery,
                d.2 ≠ PGameEnded "The host has disconnected. The poll has ended.")
             out.
Proof.
  destruct (run init two_sessions_trace) as [[w out]| |] eqn:Hrun;
    [|vm_compute in Hrun; discriminate..].
  vm_compute in Hrun. injection Hrun as <- <-.
  eexists _, _, _. split; [reflexivity|].
  split; [reflexivity|]. split; [reflexivity|].
  split; [reflexivity|]. split; [reflexivity|].
  repeat constructor; discriminate.
Qed.

(** The notification is per roster entry: the connection that joined
    twice is told twice. *)
Example rejoined_player_told_twice :
  ∃ w out,
    run init (rejoin_trace ++ [ev "" (EClose 0)]) = Done (w, out)
    ∧ filter (λ d : Delivery, d.1 = 1) (drop 7 out)
      = [(1, PGameEnded "The host has disconnected. The poll has ended.");
         (1, PGameEnded "The host has disconnected. The poll has ended.")]
    ∧ w_games w = ∅.
Proof.
  destruct (run init (rejoin_trace ++ [ev "" (EClose 0)]))
    as [[w out]| |] eqn:Hrun; [|vm_compute in Hrun; discriminate..].
  vm_compute in Hrun. injection Hrun as <- <-.
  eexists _, _. split; [reflexivity|]. split; reflexivity.
Qed.

(** The session that goes is the one the current game code names, and
    joining sets that code as creating does. A connection creates
    ["111111"], joins ["222222"] as a player, identifies as host again
    and closes: ["222222"], created by the other connection, which is
    still there, is removed, and ["111111"] stays without its host. *)
Example joined_session_ended_by_guest :
  ∃ w out g,
    run init guest_close_trace = Done (w, out)
    ∧ w_games w !! "222222" = None
    ∧ w_conns w !! 1
      = Some {| clientId := 1; role := Some host;
                currentGameCode := Some "222222"; playerId := None |}
    ∧ w_games w !! "111111" = Some g
    ∧ hostSocket g = 0
    ∧ w_conns w !! 0 = None.
Proof.
  destruct (run init guest_close_trace) as [[w out]| |] eqn:Hrun;
    [|vm_compute in Hrun; discriminate..].
  vm_compute in Hrun. injection Hrun as <- <-.
  eexists _, _, _. split; [reflexivity|].
  split; [reflexivity|]. split; [reflexivity|].
  split; [reflexivity|]. split; reflexivity.
Qed.

(** ** The question of a poll *)

(** A question that is missing or empty as sent is refused by both
    handlers, and nothing changes. *)
Lemma empty_question_rejected ready draws w s c m t :
  w_conns w !! s = Some c →
  as_string (prop "type" m) = Some t →
  t = "host:create_game" ∨ t = "host:update_poll" →
  truthy (prop "question" m) = false →
  ∃ msg, step ready draws w (EMessage s (Some m))
         = Done (w, send ready s (PError msg)).
Proof.
  intros Hc Ht Hcase Hq.
  assert (∃ msg, onMessage ready draws s (Some m) (st_of w c)
                 = reject ready s (st_of w c) msg) as [msg Hm].
  { rewrite (onMessage_typed _ _ _ _ _ _ Ht).
    destruct Hcase as [-> | ->]; simpl.
    - unfold on_create_game. rewrite Hq. simpl.
      destruct (negb (bool_decide _)); [by eexists|].
      destruct (prop "options" m) as [[]|]; by eexists.
    - unfold on_update_poll. rewrite Hq. simpl.
      destruct (negb (bool_decide _)); [by eexists|].
      destruct (currentGame _ _) as [[cd g]|]; [|by eexists].
      destruct (prop "options" m) as [[]|]; by eexists. }
  exists msg. by apply (step_reject _ _ _ _ c).
Qed.

Lemma host_only_reachable : reachable host_only.
Proof.
  apply (run_reachable init
           [ev "" EConnect; ev "" (EMessage 0 (Some (msg_identify "host")))]
           host_only [(0, PIdentified host)] reachable_init).
  vm_compute. reflexivity.
Qed.

(** C7 at the input where the server departs from it: a question made
    of spaces only is not empty as sent, so [host:create_game] and
    [host:update_poll] accept it, and the question they store, trimmed,
    is the empty string. *)
Theorem blank_question_accepted :
  trim "   " = ""
  ∧ (∃ w' g',
       step all_open ["123456"] host_only
         (EMessage 0 (Some (msg_create_game "   " ["Red"; "Blue"])))
       = Done (w', [(0, PGameCreated "123456" "" ["Red"; "Blue"])])
       ∧ w_games w' !! "123456" = Some g'
       ∧ question g' = "")
  ∧ (∃ w' out g',
       step all_open [] (world_with (colors lobby []))
         (EMessage 0 (Some (msg_update_poll "   " ["Red"; "Blue"])))
       = Done (w', out)
       ∧ (0, PPollUpdated "" ["Red"; "Blue"]) ∈ out
       ∧ w_games w' !! "123456" = Some g'
       ∧ question g' = "").
Proof.
  split; [reflexivity|]. split.
  - eexists _, _. split; [vm_compute; reflexivity|]. split; reflexivity.
  - eexists _, _, _. split; [vm_compute; reflexivity|].
    split; [left|]. split; reflexivity.
Qed.

(** ** Choosing an option *)

(** C3 at the input where the server departs from it: a [player:vote]
    whose [choiceIndex] is the number one half passes the check, is
    stored as the player's choice and marks the player as having voted,
    although it is the index of no option. *)
Theorem fractional_choice_accepted :
  let w := world_with (colors active [(2, ann false None)]) in
  validChoice (Some (JNum half)) (colors active [(2, ann false None)])
  = Some half
  ∧ as_index half = None
  ∧ step all_open [] w (EMessage 1 (Some (msg_vote half)))
    = Done (world_with (colors active [(2, ann true (Some half))]),
            [(1, PVoted half);
             (0, PPlayersUpdated [(2, "Ann", true)]);
             (0, PPollProgress [Some 0; Some 0])]).
Proof.
  intros w. split; [reflexivity|]. split; [reflexivity|].
  vm_compute. reflexivity.
Qed.

(** ** The tally *)

(** C1 at the input where the server departs from it: after the only
    player has voted one half and the host has ended the poll, the
    tally sent to both is [[0, 0]], which sums to 0, while one player
    of the roster has [hasVoted = true]. *)
Theorem half_vote_counted_nowhere :
  ∃ w out g,
    run init half_vote_trace = Done (w, out)
    ∧ w_games w !! "123456" = Some g
    ∧ (0, PHostResults [Some 0; Some 0]) ∈ out
    ∧ (1, PPollResults "Pick a color" ["Red"; "Blue"] [Some 0; Some 0]) ∈ out
    ∧ countVotes g = [Some 0; Some 0]
    ∧ total (countVotes g) = 0
    ∧ length (voters g) = 1.
Proof.
  destruct (run init half_vote_trace) as [[w out]| |] eqn:Hrun;
    [|vm_compute in Hrun; discriminate..].
  vm_compute in Hrun. injection Hrun as <- <-.
  eexists _, _, _. split; [reflexivity|]. split; [reflexivity|].
  split; [apply list_elem_of_In; simpl; tauto|].
  split; [apply list_elem_of_In; simpl; tauto|].
  split; [reflexivity|]. split; reflexivity.
Qed.

(** *** What [countVotes] computes *)

Lemma vote_into_chosen counts pl :
  vote_into counts pl
  = match chosen pl with Some i => bump counts i | None => counts end.
Proof. unfold vote_into, chosen. by destruct (choiceIndex pl). Qed.

Lemma tally_lookup n l i :
  tally n l !! i
  = if decide (i < n)
    then Some (Some (length (filter (λ pl, chosen pl = Some i) l)))
    else None.
Proof.
  unfold tally. rewrite list_lookup_fmap. case_decide.
  - by rewrite lookup_seq_lt.
  - rewrite lookup_seq_ge by lia. done.
Qed.

Lemma tally_length n l : length (tally n l) = n.
Proof. unfold tally. by rewrite length_fmap, length_seq. Qed.

Lemma tally_nil {A} (opts : list A) :
  map (λ _, Some 0) opts = tally (length opts) [].
Proof.
  apply list_eq. intros i. rewrite tally_lookup.
  change (map (λ _ : A, Some 0) opts) with ((λ _ : A, Some 0) <$> opts).
  rewrite list_lookup_fmap. case_decide as Hi.
  - apply lookup_lt_is_Some in Hi as [x ->]. done.
  - rewrite lookup_ge_None_2 by lia. done.
Qed.

Lemma tally_snoc n l pl :
  (∀ i, chosen pl = Some i → i < n) →
  vote_into (tally n l) pl = tally n (l ++ [pl]).
Proof.
  intros Hin. rewrite vote_into_chosen.
  destruct (chosen pl) as [i|] eqn:Hc.
  - specialize (Hin i eq_refl). unfold bump.
    rewrite decide_True by (by rewrite tally_length).
    apply list_eq. intros j. rewrite tally_lookup.
    destruct (decide (i = j)) as [<-|Hne].
    + rewrite list_lookup_alter_eq, tally_lookup, !decide_True by done.
      simpl. do 2 f_equal. rewrite filter_app, length_app, filter_cons.
      rewrite decide_True by done. simpl. lia.
    + rewrite list_lookup_alter_ne, tally_lookup by done.
      case_decide; [|done]. do 2 f_equal.
      rewrite filter_app, length_app, filter_cons.
      rewrite decide_False by congruence. simpl. lia.
  - apply list_eq. intros j. rewrite !tally_lookup.
    case_decide; [|done]. do 2 f_equal.
    rewrite filter_app, length_app, filter_cons.
    rewrite decide_False by congruence. simpl. lia.
Qed.

Lemma foldl_tally n l0 l :
  (∀ pl i, pl ∈ l → chosen pl = Some i → i < n) →
  foldl vote_into (tally n l0) l = tally n (l0 ++ l).
Proof.
  revert l0. induction l as [|pl l IH]; intros l0 Hin; simpl.
  - by rewrite app_nil_r.
  - rewrite tally_snoc by (intros i; apply Hin; left).
    rewrite IH by (intros pl' i ?; apply Hin; by right).
    by rewrite <- app_assoc.
Qed.

Lemma countVotes_tally g :
  choices_within g →
  countVotes g = tally (length (options g)) (mvalues (players g)).
Proof.
  intros Hin. unfold countVotes. rewrite tally_nil.
  by rewrite foldl_tally.
Qed.

(** One count per option. *)
Lemma countVotes_length g :
  choices_within g → length (countVotes g) = length (options g).
Proof. intros H. by rewrite countVotes_tally, tally_length. Qed.

(** The count at an index is the number of players who chose it. *)
Lemma countVotes_lookup g i :
  choices_within g → i < length (options g) →
  countVotes g !! i
  = Some (Some (length (filter (λ pl, chosen pl = Some i)
                               (mvalues (players g))))).
Proof.
  intros H Hi. by rewrite countVotes_tally, tally_lookup, decide_True.
Qed.

Lemma bump_inside counts i :
  i < length counts → Forall is_Some counts →
  total (bump counts i) = S (total counts)
  ∧ Forall is_Some (bump counts i)
  ∧ length (bump counts i) = length counts.
Proof.
  intros Hi Hall. unfold bump. rewrite decide_True by done.
  split; [|split; [|apply length_alter]].
  - revert i Hi. induction Hall as [|c counts [n ->] Hall IH]; intros i Hi;
      simpl in Hi; [lia|].
    destruct i as [|i]; simpl; [done|].
    change (list_alter (fmap S) i counts) with (alter (fmap S) i counts).
    rewrite IH by lia. lia.
  - revert i Hi. induction Hall as [|c counts [n ->] Hall IH]; intros i Hi;
      simpl in Hi; [lia|].
    destruct i as [|i]; simpl; constructor; eauto.
    apply IH. lia.
Qed.

Lemma foldl_total l : ∀ counts,
  Forall is_Some counts →
  (∀ pl i, pl ∈ l → chosen pl = Some i → i < length counts) →
  total (foldl vote_into counts l)
  = total counts + length (filter (λ pl, is_Some (chosen pl)) l).
Proof.
  induction l as [|pl l IH]; intros counts Hall Hin; simpl; [lia|].
  rewrite filter_cons, vote_into_chosen.
  destruct (chosen pl) as [i|] eqn:Hc.
  - assert (Hi : i < length counts) by (apply (Hin pl); [left|done]).
    destruct (bump_inside counts i Hi Hall) as (Ht & Hall' & Hlen).
    rewrite (IH (bump counts i) Hall').
    + rewrite Ht, decide_True by done. simpl. lia.
    + intros pl' j ? ?. rewrite Hlen. apply (Hin pl'); [by right|done].
  - rewrite (IH counts Hall).
    + rewrite decide_False by (by intros [? ?]). done.
    + intros pl' j ? ?. apply (Hin pl'); [by right|done].
Qed.

(** The counts add up to the number of players whose choice is the
    index of an option. *)
Lemma countVotes_total g :
  choices_within g →
  total (countVotes g)
  = length (filter (λ pl, is_Some (chosen pl)) (mvalues (players g))).
Proof.
  intros Hin. unfold countVotes. rewrite foldl_total.
  - assert (Hz : total (map (λ _ : string, Some 0) (options g)) = 0)
      by (induction (options g); simpl; lia).
    rewrite Hz. done.
  - induction (options g); simpl; constructor; eauto.
  - rewrite length_map. exact Hin.
Qed.

Lemma as_index_in_range q i n :
  as_index q = Some i → in_range q n → i < n.
Proof.
  unfold as_index, in_range. intros Hi [_ Hlt].
  destruct (Qred q) as [a d] eqn:Hr. cbn [Qnum Qden] in Hi.
  destruct (Pos.eqb_spec d 1) as [->|]; [|done].
  destruct (Z.leb_spec 0 a); [|done].
  destruct (Z.ltb_spec a (2 ^ 32 - 1)); [|done]. cbn [andb] in Hi.
  injection Hi as <-.
  assert (Hq : (q == a # 1)%Q) by (rewrite <- Hr; symmetry; apply Qred_correct).
  rewrite Hq in Hlt. unfold Qlt in Hlt. simpl in Hlt. lia.
Qed.

(** In every world the server can be in, a player has voted exactly
    when a choice is stored for it, and a stored choice lies within the
    options as a number. *)
Lemma stored_choice_in_range w cd g pid pl :
  reachable w → w_games w !! cd = Some g → (pid, pl) ∈ players g →
  (hasVoted pl = true ↔ is_Some (choiceIndex pl))
  ∧ ∀ q, choiceIndex pl = Some q → in_range q (length (options g)).
Proof.
  intros Hr Hg Hin. apply reachable_ok in Hr as [Hok _].
  destruct (Hok _ _ Hg) as (_ & _ & Hall).
  rewrite Forall_forall in Hall. by destruct (Hall _ Hin) as (_ & _ & ? & ?).
Qed.

Lemma reachable_choices_within w cd g :
  reachable w → w_games w !! cd = Some g → choices_within g.
Proof.
  intros Hr Hg pl i Hin Hc. unfold mvalues in Hin.
  apply list_elem_of_fmap in Hin as ([pid pl'] & -> & Hin). simpl in *.
  destruct (stored_choice_in_range _ _ _ _ _ Hr Hg Hin) as [_ Hrange].
  unfold chosen in Hc. destruct (choiceIndex pl') as [q|]; [|done].
  simpl in Hc. eapply as_index_in_range; eauto.
Qed.

(** The part of C1 that holds: in every world the server can be in, the
    tally of a session has one count per option, the count at an index
    is the number of roster players whose choice is that index, and the
    counts add up to the number of players whose choice is an index,
    which is at most the number of players that have voted. *)
Lemma reachable_tally w cd g :
  reachable w → w_games w !! cd = Some g →
  length (countVotes g) = length (options g)
  ∧ (∀ i, i < length (options g) →
       countVotes g !! i
       = Some (Some (length (filter (λ pl, chosen pl = Some i)
                                    (mvalues (players g))))))
  ∧ total (countVotes g)
    = length (filter (λ pl, is_Some (chosen pl)) (mvalues (players g)))
  ∧ total (countVotes g) ≤ length (voters g).
Proof.
  intros Hr Hg. pose proof (reachable_choices_within _ _ _ Hr Hg) as Hin.
  split; [by apply countVotes_length|].
  split; [intros i Hi; by apply countVotes_lookup|].
  split; [by apply countVotes_total|].
  rewrite countVotes_total by done. unfold voters.
  assert (Hv : ∀ pl, pl ∈ mvalues (players g) →
                 is_Some (chosen pl) → hasVoted pl = true).
  { intros pl Hpl [i Hc]. unfold mvalues in Hpl.
    apply list_elem_of_fmap in Hpl as ([pid pl'] & -> & Hpl). simpl in *.
    destruct (stored_choice_in_range _ _ _ _ _ Hr Hg Hpl) as [Hiff _].
    apply Hiff. unfold chosen in Hc.
    destruct (choiceIndex pl'); [by eexists|done]. }
  clear Hin. induction (mvalues (players g)) as [|pl l IH]; [done|].
  rewrite !filter_cons.
  assert (Hl : ∀ pl, pl ∈ l → is_Some (chosen pl) → hasVoted pl = true)
    by (intros ? ?; apply Hv; by right).
  specialize (IH Hl).
  destruct (decide (is_Some (chosen pl))) as [Hs|Hs].
  - rewrite decide_True by (apply Hv; [left|done]). simpl. lia.
  - case_decide; simpl; lia.
Qed.

Lemma on_vote_cases ready s m st :
  (∃ msg, on_vote ready s m st = reject ready s st msg)
  ∨ (∃ cd g pid pl q g' out,
       role (conn st) = Some player
       ∧ currentGame (conn st) (games st) = Some (cd, g)
       ∧ state g = active
       ∧ playerId (conn st) = Some pid
       ∧ mget pid (players g) = Some pl
       ∧ hasVoted pl = false
       ∧ prop "choiceIndex" m = Some (JNum q)
       ∧ in_range q (length (options g))
       ∧ on_vote ready s m st
         = Done (with_games st (<[cd := g']> (games st)), out)
       ∧ players g' = mset pid (voted pl q) (players g)
       ∧ options g' = options g ∧ state g' = active).
Proof.
  unfold on_vote.
  destruct (bool_decide (role (conn st) = Some player)) eqn:Hrole; simpl;
    [|left; by eexists].
  destruct (currentGame (conn st) (games st)) as [[cd g]|] eqn:Hgame;
    [|left; by eexists].
  destruct (bool_decide (state g = active)) eqn:Hact; simpl;
    [|left; by eexists].
  destruct (ownPlayer (conn st) g) as [[pid pl]|] eqn:Hown;
    [|left; by eexists].
  destruct (hasVoted pl) eqn:Hv; [left; by eexists|].
  destruct (validChoice (prop "choiceIndex" m) g) as [q|] eqn:Hq;
    [|left; by eexists].
  right. apply bool_decide_eq_true in Hrole, Hact.
  apply ownPlayer_Some in Hown as [Hpid Hpl].
  apply validChoice_Some in Hq as [Hq Hrange].
  eexists cd, g, pid, pl, q, _, _.
  repeat (split; [done|]). exact Hact.
Qed.

(** The part of C3 that holds: a [player:vote] frame is either refused,
    with one error to the sender and no change at all, or accepted, and
    then the sender has the player role, its session is active, it has
    an entry in the roster that has not voted, and the index is a number
    within the options; the entry is then marked as voted with that
    number. *)
Lemma vote_accepted_or_refused ready draws w s c m :
  w_conns w !! s = Some c →
  as_string (prop "type" m) = Some "player:vote" →
  ∃ w' out,
    step ready draws w (EMessage s (Some m)) = Done (w', out)
    ∧ ((w' = w ∧ ∃ msg, out = send ready s (PError msg))
       ∨ (∃ cd g pid pl q g',
            role c = Some player
            ∧ currentGame c (w_games w) = Some (cd, g)
            ∧ state g = active
            ∧ playerId c = Some pid
            ∧ mget pid (players g) = Some pl
            ∧ hasVoted pl = false
            ∧ prop "choiceIndex" m = Some (JNum q)
            ∧ in_range q (length (options g))
            ∧ w_games w' = <[cd := g']> (w_games w)
            ∧ players g' = mset pid (voted pl q) (players g)
            ∧ options g' = options g ∧ state g' = active)).
Proof.
  intros Hc Ht.
  destruct (on_vote_cases ready s m (st_of w c))
    as [[msg Hrej]|(cd & g & pid & pl & q & g' & out & H)].
  - exists w, (send ready s (PError msg)). split.
    + apply (step_reject _ _ _ _ c); [done|].
      by rewrite (onMessage_typed _ _ _ _ _ _ Ht).
    + left. split; [done|by eexists].
  - destruct H as (? & ? & ? & ? & ? & ? & ? & ? & Hv & ? & ? & ?).
    eexists _, out. split.
    + eapply step_message; [done|].
      by rewrite (onMessage_typed _ _ _ _ _ _ Ht).
    + right. exists cd, g, pid, pl, q, g'.
      rewrite world_of_games by done. simpl. done.
Qed.

(** * Further properties of the server *)

(** ** Where deliveries go *)

Lemma elem_of_send ready t p (d : Delivery) :
  d ∈ send ready t p ↔ d = (t, p) ∧ ready t = true.
Proof.
  unfold send. destruct (ready t).
  - rewrite list_elem_of_singleton. split; [by intros ->|by intros [-> _]].
  - rewrite elem_of_nil. split; [done|by intros [_ ?]].
Qed.

Lemma elem_of_broadcast ready g p (d : Delivery) :
  d ∈ broadcastToPlayers ready g p ↔
  ∃ pl, pl ∈ mvalues (players g) ∧ d = (p_socket pl, p)
        ∧ ready (p_socket pl) = true.
Proof.
  rewrite broadcast_filter, list_elem_of_fmap. split.
  - intros (pl & -> & [Hr Hin]%list_elem_of_filter). by exists pl.
  - intros (pl & Hin & -> & Hr). exists pl. split; [done|].
    by apply list_elem_of_filter.
Qed.

(** ** Refusals of the router *)

(** An intent reserved for hosts, sent on a connection whose stored
    role is not host, and an intent reserved for players, sent on a
    connection whose stored role is not player, is answered with an
    error to the sender, whatever the frame carries, and changes
    nothing. A connection that has not identified itself is in both
    cases. *)
Theorem wrong_role_rejected ready draws w s c m t r :
  w_conns w !! s = Some c →
  as_string (prop "type" m) = Some t →
  required_role t = Some r →
  role c ≠ Some r →
  ∃ msg, step ready draws w (EMessage s (Some m))
         = Done (w, send ready s (PError msg)).
Proof.
  intros Hc Ht Hreq Hrole.
  assert (∃ msg, onMessage ready draws s (Some m) (st_of w c)
                 = reject ready s (st_of w c) msg) as [msg Hm].
  { rewrite (onMessage_typed _ _ _ _ _ _ Ht). unfold required_role in Hreq.
    repeat match type of Hreq with
           | (if ?b then _ else _) = _ => destruct b; [simplify_eq|]
           end; try discriminate.
    all: unfold on_create_game, on_update_poll, on_start_poll, on_end_poll,
           on_join, on_vote; simpl;
         rewrite bool_decide_false by done; simpl; by eexists. }
  exists msg. by apply (step_reject _ _ _ _ c).
Qed.

Lemma wrong_role_rejected_witness :
  let w := world_with (colors lobby []) in
  role ann_conn ≠ Some host
  ∧ ∃ msg, step all_open [] w (EMessage 1 (Some msg_start_poll))
           = Done (w, send all_open 1 (PError msg)).
Proof.
  intros w.
  assert (Hne : role ann_conn ≠ Some host) by discriminate.
  split; [exact Hne|].
  exact (wrong_role_rejected all_open [] w 1 ann_conn msg_start_poll
           "host:start_poll" host eq_refl eq_refl eq_refl Hne).
Defined.

(** An update, start, end or vote from a connection of the right role
    that has no live session, because it never created or joined one or
    because the session is gone, is answered with an error and changes
    nothing. *)
Theorem no_session_rejected ready draws w s c m t :
  w_conns w !! s = Some c →
  as_string (prop "type" m) = Some t →
  needs_session t = true →
  currentGame c (w_games w) = None →
  ∃ msg, step ready draws w (EMessage s (Some m))
         = Done (w, send ready s (PError msg)).
Proof.
  intros Hc Ht Hneed Hgame.
  assert (∃ msg, onMessage ready draws s (Some m) (st_of w c)
                 = reject ready s (st_of w c) msg) as [msg Hm].
  { rewrite (onMessage_typed _ _ _ _ _ _ Ht). unfold needs_session in Hneed.
    destruct (String.eqb t "identify") eqn:E0.
    { apply String.eqb_eq in E0 as ->. discriminate. }
    destruct (String.eqb t "host:create_game") eqn:E1.
    { apply String.eqb_eq in E1 as ->. discriminate. }
    destruct (String.eqb t "host:update_poll") eqn:E2;
      [|destruct (String.eqb t "host:start_poll") eqn:E3;
        [|destruct (String.eqb t "host:end_poll") eqn:E4;
          [|destruct (String.eqb t "player:join") eqn:E5;
            [apply String.eqb_eq in E5 as ->; discriminate|];
            destruct (String.eqb t "player:vote") eqn:E6;
            [|discriminate]]]].
    all: unfold on_update_poll, on_start_poll, on_end_poll, on_vote; simpl;
         rewrite Hgame; destruct (negb (bool_decide _)); by eexists. }
  exists msg. by apply (step_reject _ _ _ _ c).
Qed.

Lemma no_session_rejected_witness :
  currentGame {| clientId := 0; role := Some host;
                 currentGameCode := None; playerId := None |}
              (w_games host_only) = None
  ∧ ∃ msg, step all_open [] host_only (EMessage 0 (Some msg_end_poll))
           = Done (host_only, send all_open 0 (PError msg)).
Proof.
  split; [reflexivity|].
  exact (no_session_rejected all_open [] host_only 0 _ msg_end_poll
           "host:end_poll" eq_refl eq_refl eq_refl eq_refl).
Defined.

(** A frame that is not JSON, and a frame that is JSON other than
    [null] but whose [type] is none of the seven intents (or is missing,
    or is not a string), is answered with an error and changes
    nothing. *)
Theorem unknown_frame_rejected ready draws w s c raw :
  w_conns w !! s = Some c →
  (raw = None →
     step ready draws w (EMessage s raw)
     = Done (w, send ready s (PError "Invalid JSON payload received.")))
  ∧ (∀ m, raw = Some m → m ≠ JNull →
          (∀ t, as_string (prop "type" m) = Some t → known_type t = false) →
          step ready draws w (EMessage s raw)
          = Done (w, send ready s (PError "Unknown message type received."))).
Proof.
  intros Hc. split.
  - intros ->. by apply (step_reject _ _ _ _ c).
  - intros m -> Hnull Hunk. apply (step_reject _ _ _ _ c); [done|].
    destruct (as_string (prop "type" m)) as [t|] eqn:Ht.
    + rewrite (onMessage_typed _ _ _ _ _ _ Ht).
      specialize (Hunk t eq_refl). unfold known_type in Hunk.
      repeat (apply orb_false_iff in Hunk as [Hunk ?]).
      by repeat match goal with H : String.eqb _ _ = false |- _ =>
                         rewrite H; clear H end.
    + unfold onMessage. rewrite Ht. by destruct m.
Qed.

Lemma unknown_frame_rejected_witness :
  let w := world_with (colors lobby []) in
  w_conns w !! 1 = Some ann_conn
  ∧ step all_open [] w (EMessage 1 None)
    = Done (w, send all_open 1 (PError "Invalid JSON payload received."))
  ∧ step all_open [] w (EMessage 1 (Some (JObj [("type", JStr "player:leave")])))
    = Done (w, send all_open 1 (PError "Unknown message type received."))
  ∧ step all_open [] w (EMessage 1 (Some (JNum 7%Q)))
    = Done (w, send all_open 1 (PError "Unknown message type received.")).
Proof.
  intros w. split; [reflexivity|].
  destruct (unknown_frame_rejected all_open [] w 1 ann_conn None eq_refl)
    as [Hbad _].
  destruct (unknown_frame_rejected all_open [] w 1 ann_conn
              (Some (JObj [("type", JStr "player:leave")])) eq_refl)
    as [_ Hunk1].
  destruct (unknown_frame_rejected all_open [] w 1 ann_conn
              (Some (JNum 7%Q)) eq_refl) as [_ Hunk2].
  split; [exact (Hbad eq_refl)|]. split.
  - apply (Hunk1 _ eq_refl); [discriminate|].
    intros t [= <-]. reflexivity.
  - apply (Hunk2 _ eq_refl); [discriminate|]. intros t; discriminate.
Defined.

(** ** Ending a round *)

(** For a host connection with a live current session, a
    [host:end_poll] frame is refused with an error, changing nothing,
    unless the session is [active]. From [active] the session becomes
    [ended] with its question, options and roster untouched (the votes
    stay), the host is sent the tally and then every roster player
    whose socket is writable is sent the question, the options and the
    same tally. *)
Theorem end_poll_publishes_tally ready draws w s c cd g m :
  w_conns w !! s = Some c →
  role c = Some host →
  currentGame c (w_games w) = Some (cd, g) →
  as_string (prop "type" m) = Some "host:end_poll" →
  (state g ≠ active →
     step ready draws w (EMessage s (Some m))
     = Done (w, send ready s (PError "The poll is not currently running.")))
  ∧ (state g = active →
     ∃ g',
       step ready draws w (EMessage s (Some m))
       = Done ({| w_games := <[cd := g']> (w_games w);
                  w_conns := w_conns w; w_uuids := w_uuids w;
                  w_socks := w_socks w |},
               send ready s (PHostResults (countVotes g))
               ++ ((λ pl, (p_socket pl,
                           PPollResults (question g) (options g)
                                        (countVotes g)))
                     <$> filter (λ pl, ready (p_socket pl) = true)
                                (mvalues (players g))))
       ∧ state g' = ended
       ∧ players g' = players g
       ∧ question g' = question g ∧ options g' = options g).
Proof.
  intros Hc Hrole Hgame Ht. split.
  - intros Hact. apply (step_reject _ _ _ _ c); [done|].
    rewrite (onMessage_typed _ _ _ _ _ _ Ht). simpl.
    unfold on_end_poll. simpl. rewrite Hrole, Hgame. simpl.
    by rewrite bool_decide_false.
  - intros Hact. eexists.
    erewrite step_message; [|done|].
    2:{ rewrite (onMessage_typed _ _ _ _ _ _ Ht). simpl.
        unfold on_end_poll. simpl. rewrite Hrole, Hgame. simpl.
        rewrite bool_decide_true by done. simpl. reflexivity. }
    rewrite world_of_games by done. rewrite broadcast_filter.
    split; [reflexivity|]. done.
Qed.

Lemma end_poll_publishes_tally_witness :
  let g := colors active [(2, ann true (Some 0%Q))] in
  let w := world_with g in
  state g = active
  ∧ ∃ g',
      step all_open [] w (EMessage 0 (Some msg_end_poll))
      = Done ({| w_games := <["123456" := g']> (w_games w);
                 w_conns := w_conns w; w_uuids := 3; w_socks := 2 |},
              [(0, PHostResults [Some 1; Some 0]);
               (1, PPollResults "Pick a color" ["Red"; "Blue"]
                     [Some 1; Some 0])])
      ∧ state g' = ended
      ∧ players g' = players g
      ∧ question g' = question g ∧ options g' = options g.
Proof.
  intros g w. split; [reflexivity|].
  exact (proj2 (end_poll_publishes_tally all_open [] w 0 host_conn
                  "123456" g msg_end_poll eq_refl eq_refl eq_refl eq_refl)
               eq_refl).
Defined.

(** ** A connection goes away *)

Lemma mget_mdelete_ne {K V} `{EqDecision K} (k k' : K) (m : list (K * V)) :
  k' ≠ k → mget k' (mdelete k m) = mget k' m.
Proof.
  intros Hne. induction m as [|[k0 v0] m IH]; simpl; [done|].
  destruct (decide (k = k0)) as [->|Hk].
  - by rewrite decide_False.
  - simpl. by rewrite IH.
Qed.

Lemma mget_mdelete_eq {K V} `{EqDecision K} (k : K) (m : list (K * V)) :
  NoDup (mkeys m) → mget k (mdelete k m) = None.
Proof.
  unfold mkeys. induction m as [|[k0 v0] m IH]; csimpl; [done|].
  intros [Hnin Hnd]%NoDup_cons.
  destruct (decide (k = k0)) as [->|Hk].
  - by apply mget_None_keys.
  - simpl. rewrite decide_False by done. by apply IH.
Qed.

(** When a connection whose stored role is player closes while it has a
    player identifier and the session named by its current game code is
    live, the entry stored under that identifier in the roster of that
    session, if there is one, is removed and nothing else is: the other
    entries stay, in order, with their votes, the session keeps its
    state, question, options and host and stays in the store, and its
    host is sent the roster as it now is. The current game code is that
    of the session the connection joined or created most recently,
    whichever came last. *)
Theorem player_close_leaves_roster ready draws w s c cd g pid :
  w_conns w !! s = Some c →
  role c = Some player →
  currentGame c (w_games w) = Some (cd, g) →
  playerId c = Some pid →
  ∃ g',
    step ready draws w (EClose s)
    = Done ({| w_games := <[cd := g']> (w_games w);
               w_conns := delete s (w_conns w);
               w_uuids := w_uuids w; w_socks := w_socks w |},
            send ready (hostSocket g)
              (PPlayersUpdated (serializePlayers g')))
    ∧ players g' = mdelete pid (players g)
    ∧ (∀ pid', pid' ≠ pid →
         mget pid' (players g') = mget pid' (players g))
    ∧ (NoDup (mkeys (players g)) → mget pid (players g') = None)
    ∧ state g' = state g ∧ question g' = question g
    ∧ options g' = options g ∧ hostSocket g' = hostSocket g.
Proof.
  intros Hc Hrole Hgame Hpid. eexists. split.
  - unfold step. rewrite Hc. unfold onClose. simpl.
    rewrite Hrole, Hgame, Hpid. simpl. reflexivity.
  - simpl. split; [done|]. split; [|split; [|done]].
    + intros pid' Hne. by apply mget_mdelete_ne.
    + apply mget_mdelete_eq.
Qed.

Lemma player_close_leaves_roster_witness :
  let g := colors active [(2, ann true (Some 0%Q))] in
  let w := world_with g in
  playerId ann_conn = Some 2
  ∧ ∃ g',
      step all_open [] w (EClose 1)
      = Done ({| w_games := <["123456" := g']> (w_games w);
                 w_conns := delete 1 (w_conns w);
                 w_uuids := 3; w_socks := 2 |},
              send all_open 0 (PPlayersUpdated (serializePlayers g')))
      ∧ players g' = []
      ∧ (∀ pid', pid' ≠ 2 →
           mget pid' (players g') = mget pid' (players g))
      ∧ (NoDup [2] → mget 2 (players g') = None)
      ∧ state g' = active ∧ question g' = question g
      ∧ options g' = options g ∧ hostSocket g' = 0.
Proof.
  intros g w. split; [reflexivity|].
  exact (player_close_leaves_roster all_open [] w 1 ann_conn "123456" g 2
           eq_refl eq_refl eq_refl eq_refl).
Defined.

(** The roster the closing connection leaves is the one its current
    game code names, and creating a session sets that code as joining
    does. A connection joins ["111111"], creates ["222222"] as a host,
    identifies as player again and closes: its entry stays in the
    roster of ["111111"], whose host is told nothing, and ["222222"]
    stays in the store without its host. *)
Example entry_outlives_connection :
  ∃ w out g g',
    run init stray_entry_trace = Done (w, out)
    ∧ w_conns w !! 1 = None
    ∧ w_games w !! "111111" = Some g
    ∧ players g = [(2, {| p_id := 2; p_name := "Ann"; p_socket := 1;
                          hasVoted := false; choiceIndex := None |})]
    ∧ w_games w !! "222222" = Some g'
    ∧ hostSocket g' = 1
    ∧ filter (λ d : Delivery, d.1 = 0) out
      = [(0, PIdentified host);
         (0, PGameCreated "111111" "Pick a color" ["Red"; "Blue"]);
         (0, PPlayersUpdated [(2, "Ann", false)])].
Proof.
  destruct (run init stray_entry_trace) as [[w out]| |] eqn:Hrun;
    [|vm_compute in Hrun; discriminate..].
  vm_compute in Hrun. injection Hrun as <- <-.
  eexists _, _, _, _. split; [reflexivity|].
  split; [reflexivity|]. split; [reflexivity|].
  split; [reflexivity|]. split; [reflexivity|].
  split; reflexivity.
Qed.

(** A close that finds nothing to clean up does nothing but forget the
    connection: that of a connection that never identified itself, of a
    host whose current session is not in the store (it never created
    one), and of a player that has no live session. No session is
    touched and nobody is notified. *)
Theorem idle_close_is_silent ready draws w s c :
  w_conns w !! s = Some c →
  role c = None ∨ currentGame c (w_games w) = None →
  step ready draws w (EClose s)
  = Done ({| w_games := w_games w; w_conns := delete s (w_conns w);
             w_uuids := w_uuids w; w_socks := w_socks w |}, []).
Proof.
  intros Hc Hidle. unfold step. rewrite Hc.
  unfold onClose, destroyGame, with_games. simpl.
  destruct (role c) as [[]|] eqn:Hrole.
  - destruct Hidle as [?|Hgame]; [done|]. unfold currentGame in Hgame.
    destruct (currentGameCode c) as [cd|]; [|reflexivity].
    destruct (truthy_str cd); [|reflexivity].
    destruct (w_games w !! cd); [discriminate|reflexivity].
  - destruct Hidle as [?|Hgame]; [done|].
    destruct (currentGameCode c); simpl; by rewrite Hgame.
  - by destruct (currentGameCode c).
Qed.

Lemma idle_close_is_silent_witness :
  step all_open [] host_only (EClose 0)
  = Done ({| w_games := ∅; w_conns := delete 0 (w_conns host_only);
             w_uuids := 1; w_socks := 1 |}, []).
Proof.
  apply (idle_close_is_silent all_open [] host_only 0
           {| clientId := 0; role := Some host;
              currentGameCode := None; playerId := None |} eq_refl).
  right. reflexivity.
Defined.

(** ** What a frame can and cannot touch *)

Ltac open_message H :=
  unfold onMessage in H;
  match type of H with
  | context [match ?raw with Some _ => _ | None => _ end] =>
      destruct raw as [[]|]; try discriminate
  end;
  unfold on_identify, on_create_game, on_update_poll, on_start_poll,
    on_end_poll, on_join, on_vote, reject, with_games, with_conn,
    trimmedText, mbind, Result_bind in H.

Ltac split_deliveries H :=
  repeat first
    [ rewrite elem_of_app in H
    | rewrite elem_of_send in H
    | rewrite elem_of_broadcast in H
    | rewrite elem_of_nil in H ];
  repeat match type of H with
         | _ ∨ _ => destruct H as [H|H]
         end.

Lemma onMessage_error_unchanged ready draws s raw st st' out t msg :
  onMessage ready draws s raw st = Done (st', out) →
  (t, PError msg) ∈ out →
  st' = st ∧ t = s ∧ out = [(s, PError msg)].
Proof.
  intros H Hin. open_message H.
  all: break_handler.
  all: try (apply elem_of_send in Hin as [[= -> ->] Hr];
            unfold send; by rewrite Hr).
  all: exfalso; split_deliveries Hin;
       first [ by destruct Hin as [? _]
             | by destruct Hin as (? & _ & ? & _)
             | done ].
Qed.

(** A frame that is answered with an error has changed nothing, the
    error is all that was sent, and it went to the sender: no handler
    reports an error after it has begun to mutate, and no success path
    sends one. *)
Theorem error_reply_means_no_change ready draws w s c raw w' out t msg :
  w_conns w !! s = Some c →
  step ready draws w (EMessage s raw) = Done (w', out) →
  (t, PError msg) ∈ out →
  w' = w ∧ t = s ∧ out = [(s, PError msg)].
Proof.
  intros Hc Hstep Hin. unfold step in Hstep. rewrite Hc in Hstep.
  destruct (onMessage ready draws s raw (st_of w c)) as [[st' o]| |] eqn:Hm;
    simplify_eq/=.
  destruct (onMessage_error_unchanged _ _ _ _ _ _ _ _ _ Hm Hin)
    as (-> & -> & ->).
  by rewrite world_of_same.
Qed.

Lemma error_reply_means_no_change_witness :
  let w := world_with (colors lobby [(2, ann false None)]) in
  step all_open [] w (EMessage 1 (Some (msg_vote 0%Q)))
  = Done (w, [(1, PError "Voting is not open at the moment.")])
  ∧ w = w ∧ 1 = 1
  ∧ [(1, PError "Voting is not open at the moment.")]
    = [(1, PError "Voting is not open at the moment.")].
Proof.
  intros w.
  assert (Hs : step all_open [] w (EMessage 1 (Some (msg_vote 0%Q)))
               = Done (w, [(1, PError "Voting is not open at the moment.")]))
    by reflexivity.
  split; [exact Hs|].
  apply (error_reply_means_no_change all_open [] w 1 ann_conn
           (Some (msg_vote 0%Q)) w _ 1 _ eq_refl Hs).
  left.
Defined.

Lemma onMessage_out_ready ready draws s raw st st' out d :
  onMessage ready draws s raw st = Done (st', out) →
  d ∈ out → ready d.1 = true.
Proof.
  intros H Hin. open_message H.
  all: break_handler.
  all: split_deliveries Hin;
       first [ by destruct Hin as [-> ?]
             | by destruct Hin as (? & _ & -> & ?)
             | done ].
Qed.

Lemma onClose_out_ready ready st st' out d :
  onClose ready st = (st', out) → d ∈ out → ready d.1 = true.
Proof.
  unfold onClose, destroyGame, with_games. intros H Hin.
  break_handler.
  all: split_deliveries Hin;
       first [ by destruct Hin as [-> ?]
             | by destruct Hin as (? & _ & -> & ?)
             | done ].
Qed.

(** Whatever the event, nothing is ever written to a socket that is not
    open at that moment: every delivery of a step goes to a socket the
    transport reports as writable. A player or host that is closing is
    skipped, not an error. *)
Theorem deliveries_only_to_open_sockets ready draws w e w' out d :
  step ready draws w e = Done (w', out) →
  d ∈ out → ready d.1 = true.
Proof.
  intros Hstep Hin. destruct e as [|s raw|s]; simpl in Hstep.
  - simplify_eq. by apply elem_of_nil in Hin.
  - destruct (w_conns w !! s) as [c|];
      [|simplify_eq; by apply elem_of_nil in Hin].
    destruct (onMessage _ _ _ _ _) as [[st' o]| |] eqn:Hm; simplify_eq/=.
    by eapply onMessage_out_ready.
  - destruct (w_conns w !! s) as [c|];
      [|simplify_eq; by apply elem_of_nil in Hin].
    destruct (onClose _ _) as [st' o] eqn:Hm. simplify_eq.
    by eapply onClose_out_ready.
Qed.

Lemma deliveries_only_to_open_sockets_witness :
  let g := colors active [(2, ann true (Some 0%Q))] in
  let host_up : Sock → bool := λ t, bool_decide (t = 0) in
  step host_up [] (world_with g) (EMessage 0 (Some msg_end_poll))
  = Done (world_with (colors ended [(2, ann true (Some 0%Q))]),
          [(0, PHostResults [Some 1; Some 0])])
  ∧ host_up 0 = true.
Proof.
  intros g host_up.
  assert (Hs : step host_up [] (world_with g) (EMessage 0 (Some msg_end_poll))
               = Done (world_with (colors ended [(2, ann true (Some 0%Q))]),
                       [(0, PHostResults [Some 1; Some 0])]))
    by (vm_compute; reflexivity).
  split; [exact Hs|].
  apply (deliveries_only_to_open_sockets host_up [] (world_with g) _ _ _
           (0, PHostResults [Some 1; Some 0]) Hs).
  left.
Defined.

Ltac at_key H :=
  simpl in H; rewrite lookup_insert in H; case_decide; simplify_eq/=.

Lemma onMessage_other_sessions ready draws s raw st st' out cd :
  onMessage ready draws s raw st = Done (st', out) →
  currentGameCode (conn st') ≠ Some cd →
  games st' !! cd = games st !! cd.
Proof.
  intros H Hne. open_message H.
  all: break_handler; try done.
  all: use_guards; rewrite lookup_insert_ne; [done|congruence].
Qed.

(** A frame touches at most one session, the one its connection is
    attached to once the frame is handled: every session stored under
    another code is left exactly as it was, as are the variables of
    every other connection. A close touches at most the session the
    closing connection was attached to. *)
Theorem other_sessions_untouched ready draws w s c :
  w_conns w !! s = Some c →
  (∀ raw w' out,
     step ready draws w (EMessage s raw) = Done (w', out) →
     (∀ cd, (∀ c', w_conns w' !! s = Some c' →
                   currentGameCode c' ≠ Some cd) →
            w_games w' !! cd = w_games w !! cd)
     ∧ (∀ s', s' ≠ s → w_conns w' !! s' = w_conns w !! s'))
  ∧ (∀ w' out,
       step ready draws w (EClose s) = Done (w', out) →
       (∀ cd, currentGameCode c ≠ Some cd →
              w_games w' !! cd = w_games w !! cd)
       ∧ (∀ s', s' ≠ s → w_conns w' !! s' = w_conns w !! s')).
Proof.
  intros Hc. split.
  - intros raw w' out Hstep. unfold step in Hstep. rewrite Hc in Hstep.
    destruct (onMessage ready draws s raw (st_of w c)) as [[st' o]| |] eqn:Hm;
      simplify_eq/=.
    split; [|intros s' Hne; by rewrite lookup_insert_ne].
    intros cd Hne.
    apply (onMessage_other_sessions _ _ _ _ _ _ _ cd) in Hm; [done|].
    apply Hne. by rewrite lookup_insert_eq.
  - intros w' out Hstep. unfold step in Hstep. rewrite Hc in Hstep.
    destruct (onClose ready (st_of w c)) as [st' o] eqn:Hm. simplify_eq/=.
    split; [|intros s' Hne; by rewrite lookup_delete_ne].
    intros cd Hne. unfold onClose, destroyGame, with_games in Hm.
    break_handler; try done; use_guards.
    + rewrite lookup_delete_ne; [done|congruence].
    + rewrite lookup_insert_ne; [done|congruence].
Qed.

Lemma other_sessions_untouched_witness :
  let g := colors active [(2, ann false None)] in
  let w := world_with g in
  ∃ w' out,
    step all_open [] w (EMessage 1 (Some (msg_vote 1%Q))) = Done (w', out)
    ∧ w_games w' !! "654321" = w_games w !! "654321"
    ∧ w_conns w' !! 0 = w_conns w !! 0.
Proof.
  intros g w.
  destruct (step all_open [] w (EMessage 1 (Some (msg_vote 1%Q))))
    as [[w' out]| |] eqn:Hs; [|vm_compute in Hs; discriminate..].
  exists w', out. split; [reflexivity|].
  destruct (proj1 (other_sessions_untouched all_open [] w 1 ann_conn eq_refl)
              _ w' out Hs) as [Hg Hcn].
  split.
  - apply Hg.
    vm_compute in Hs. injection Hs as <- _. intros c' [= <-]. discriminate.
  - by apply Hcn.
Defined.

Lemma onMessage_identity ready draws s raw st st' out cd g g' :
  onMessage ready draws s raw st = Done (st', out) →
  games st !! cd = Some g → games st' !! cd = Some g' →
  code g' = code g ∧ hostId g' = hostId g ∧ hostSocket g' = hostSocket g.
Proof.
  intros H Hb Ha. open_message H.
  all: break_handler; try done.
  all: use_guards; at_key Ha; done.
Qed.

Lemma onClose_identity ready st st' out cd g g' :
  onClose ready st = (st', out) →
  games st !! cd = Some g → games st' !! cd = Some g' →
  code g' = code g ∧ hostId g' = hostId g ∧ hostSocket g' = hostSocket g.
Proof.
  unfold onClose, destroyGame, with_games. intros H Hb Ha.
  break_handler; try done; use_guards.
  - apply lookup_delete_Some in Ha as [_ Ha]. by simplify_eq.
  - at_key Ha; done.
Qed.

(** As long as a session is in the store, its code, the identifier of
    the host that created it and the host's socket are what they were
    at creation: no event changes them. In particular an update, a
    start or an end from a connection that is not the creator (one that
    joined and then identified as host) does not make that connection
    the host. *)
Theorem session_identity_is_fixed ready draws w e w' out cd g g' :
  step ready draws w e = Done (w', out) →
  w_games w !! cd = Some g → w_games w' !! cd = Some g' →
  code g' = code g ∧ hostId g' = hostId g ∧ hostSocket g' = hostSocket g.
Proof.
  intros Hstep Hb Ha. destruct e as [|s raw|s]; simpl in Hstep.
  - by simplify_eq/=.
  - destruct (w_conns w !! s) as [c|]; [|by simplify_eq].
    destruct (onMessage _ _ _ _ _) as [[st' o]| |] eqn:Hm; simplify_eq/=.
    by eapply onMessage_identity.
  - destruct (w_conns w !! s) as [c|]; [|by simplify_eq].
    destruct (onClose _ _) as [st' o] eqn:Hm. simplify_eq/=.
    by eapply onClose_identity.
Qed.

Lemma session_identity_is_fixed_witness :
  let g := colors ended [(2, ann true (Some 0%Q))] in
  ∃ w' out g',
    step all_open [] (world_with g)
      (EMessage 0 (Some (msg_update_poll "Best pet?" ["Cat"; "Dog"])))
    = Done (w', out)
    ∧ w_games w' !! "123456" = Some g'
    ∧ question g' = "Best pet?"
    ∧ code g' = "123456" ∧ hostId g' = 0 ∧ hostSocket g' = 0.
Proof.
  intros g.
  destruct (step all_open [] (world_with g)
              (EMessage 0 (Some (msg_update_poll "Best pet?" ["Cat"; "Dog"]))))
    as [[w' out]| |] eqn:Hs; [|vm_compute in Hs; discriminate..].
  assert (Hg : ∃ g', w_games w' !! "123456" = Some g'
                     ∧ question g' = "Best pet?").
  { vm_compute in Hs. injection Hs as <- _. eexists. split; reflexivity. }
  destruct Hg as (g' & Hg' & Hq).
  exists w', out, g'. split; [reflexivity|]. split; [exact Hg'|].
  split; [exact Hq|].
  exact (session_identity_is_fixed all_open [] (world_with g) _ w' out
           "123456" g g' Hs eq_refl Hg').
Defined.

Lemma onMessage_poll_kept ready draws s raw st st' out cd g g' :
  onMessage ready draws s raw st = Done (st', out) →
  is_update (EMessage s raw) = false →
  games st !! cd = Some g → games st' !! cd = Some g' →
  question g' = question g ∧ options g' = options g.
Proof.
  intros H Hup Hb Ha. destruct raw as [m|];
    [|unfold onMessage, reject in H; by simplify_eq].
  simpl in Hup. destruct (as_string (prop "type" m)) as [t|] eqn:Ht.
  - rewrite (onMessage_typed _ _ _ _ _ _ Ht), Hup in H.
    unfold on_identify, on_create_game, on_start_poll, on_end_poll, on_join,
      on_vote, reject, with_games, with_conn, trimmedText, mbind, Result_bind
      in H.
    break_handler; try done.
    all: use_guards; at_key Ha; done.
  - unfold onMessage, reject in H. rewrite Ht in H.
    destruct m; by simplify_eq.
Qed.

(** The question and the options of a session that stays in the store
    are changed by no event other than a [host:update_poll] frame:
    starting, ending, joining, voting, identifying, creating another
    session and closing leave them as they are. *)
Theorem poll_changes_only_by_update ready draws w e w' out cd g g' :
  step ready draws w e = Done (w', out) →
  is_update e = false →
  w_games w !! cd = Some g → w_games w' !! cd = Some g' →
  question g' = question g ∧ options g' = options g.
Proof.
  intros Hstep Hup Hb Ha. destruct e as [|s raw|s]; simpl in Hstep.
  - by simplify_eq/=.
  - destruct (w_conns w !! s) as [c|]; [|by simplify_eq].
    destruct (onMessage _ _ _ _ _) as [[st' o]| |] eqn:Hm; simplify_eq/=.
    by eapply onMessage_poll_kept.
  - destruct (w_conns w !! s) as [c|]; [|by simplify_eq].
    destruct (onClose _ _) as [st' o] eqn:Hm. simplify_eq/=.
    unfold onClose, destroyGame, with_games in Hm.
    break_handler; try done; use_guards.
    + apply lookup_delete_Some in Ha as [_ Ha]. by simplify_eq.
    + at_key Ha; done.
Qed.

Lemma poll_changes_only_by_update_witness :
  let g := colors lobby [(2, ann false None)] in
  ∃ w' out g',
    step all_open [] (world_with g) (EMessage 0 (Some msg_start_poll))
    = Done (w', out)
    ∧ w_games w' !! "123456" = Some g'
    ∧ state g' = active
    ∧ question g' = "Pick a color" ∧ options g' = ["Red"; "Blue"].
Proof.
  intros g.
  destruct (step all_open [] (world_with g) (EMessage 0 (Some msg_start_poll)))
    as [[w' out]| |] eqn:Hs; [|vm_compute in Hs; discriminate..].
  assert (Hg : ∃ g', w_games w' !! "123456" = Some g' ∧ state g' = active).
  { vm_compute in Hs. injection Hs as <- _. eexists. split; reflexivity. }
  destruct Hg as (g' & Hg' & Hst).
  exists w', out, g'. split; [reflexivity|]. split; [exact Hg'|].
  split; [exact Hst|].
  exact (poll_changes_only_by_update all_open [] (world_with g) _ w' out
           "123456" g g' Hs eq_refl eq_refl Hg').
Defined.

(** ** Codes *)

Lemma onMessage_keyed ready draws s raw st st' out :
  (∀ cd g, games st !! cd = Some g → code g = cd) →
  onMessage ready draws s raw st = Done (st', out) →
  ∀ cd g, games st' !! cd = Some g → code g = cd.
Proof.
  intros Hk H cd g Ha. open_message H.
  all: break_handler; eauto.
  all: use_guards; at_key Ha; eauto.
Qed.

Lemma onClose_keyed ready st st' out :
  (∀ cd g, games st !! cd = Some g → code g = cd) →
  onClose ready st = (st', out) →
  ∀ cd g, games st' !! cd = Some g → code g = cd.
Proof.
  unfold onClose, destroyGame, with_games. intros Hk H cd g Ha.
  break_handler; eauto; use_guards.
  - apply lookup_delete_Some in Ha as [_ Ha]. eauto.
  - at_key Ha; eauto.
Qed.

(** In every world the server can be in, each session is stored under
    its own code: the code a session reports in [host:game_created]
    and the key players join it by are the same string. *)
Theorem sessions_keyed_by_code w cd g :
  reachable w → w_games w !! cd = Some g → code g = cd.
Proof.
  intros Hr. revert cd g.
  induction Hr as [|ready draws w e w' out Hr IH Hstep]; intros cd g Hg.
  - simpl in Hg. by rewrite lookup_empty in Hg.
  - destruct e as [|s raw|s]; simpl in Hstep.
    + simplify_eq/=. eauto.
    + destruct (w_conns w !! s) as [c|]; [|simplify_eq; eauto].
      destruct (onMessage _ _ _ _ _) as [[st' o]| |] eqn:Hm; simplify_eq/=.
      eapply onMessage_keyed; [|exact Hm|exact Hg]. exact IH.
    + destruct (w_conns w !! s) as [c|]; [|simplify_eq; eauto].
      destruct (onClose _ _) as [st' o] eqn:Hm. simplify_eq/=.
      eapply onClose_keyed; [|exact Hm|exact Hg]. exact IH.
Qed.

Lemma sessions_keyed_by_code_witness :
  let g := colors ended [(2, ann true (Some 0%Q))] in
  reachable (world_with g) ∧ code g = "123456".
Proof.
  intros g. split; [exact scenario_reachable|].
  exact (sessions_keyed_by_code (world_with g) "123456" g
           scenario_reachable eq_refl).
Defined.

Lemma generateGameCode_skips gs pre rest :
  Forall (λ d, is_Some (gs !! d)) pre →
  generateGameCode gs (pre ++ rest) = generateGameCode gs rest.
Proof.
  induction 1 as [|d pre [g Hd] _ IH]; simpl; [done|]. by rewrite Hd.
Qed.

(** [host:create_game] with a valid poll stores the new session under
    the first random draw that is not the code of a live session: the
    draws before it, all taken, are skipped. The sessions already in
    the store are left as they are, none is overwritten; the new one is
    in the lobby with an empty roster and the sender as its host, and
    the sender's connection is attached to it. If every draw is taken
    the handler is still looping. *)
Theorem create_uses_first_free_code ready s w c m q opts pre :
  w_conns w !! s = Some c →
  role c = Some host →
  as_string (prop "type" m) = Some "host:create_game" →
  prop "question" m = Some (JStr q) →
  prop "options" m = Some (JArr (JStr <$> opts)) →
  q ≠ "" → 2 ≤ length (nonEmpty (trim <$> opts)) →
  Forall (λ d, is_Some (w_games w !! d)) pre →
  (∀ cd rest, w_games w !! cd = None →
     ∃ w' g',
       step ready (pre ++ cd :: rest) w (EMessage s (Some m))
       = Done (w', send ready s
                     (PGameCreated cd (trim q) (nonEmpty (trim <$> opts))))
       ∧ w_games w' = <[cd := g']> (w_games w)
       ∧ (∀ cd', cd' ≠ cd → w_games w' !! cd' = w_games w !! cd')
       ∧ code g' = cd ∧ hostSocket g' = s ∧ hostId g' = clientId c
       ∧ state g' = lobby ∧ players g' = []
       ∧ currentGameCode <$> w_conns w' !! s = Some (Some cd))
  ∧ step ready pre w (EMessage s (Some m)) = Spins.
Proof.
  intros Hc Hrole Ht Hq Hopts Hne Hlen Hpre. split.
  - intros cd rest Hfree.
    assert (Hcode : generateGameCode (games (st_of w c)) (pre ++ cd :: rest)
                    = Done cd).
    { rewrite generateGameCode_skips by done. simpl. by rewrite Hfree. }
    eexists _, _. split.
    + eapply step_message; [done|].
      rewrite (onMessage_typed _ _ _ _ _ _ Ht). simpl.
      by apply on_create_game_accepted.
    + simpl. split; [done|]. split.
      * intros cd' Hne'. by rewrite lookup_insert_ne.
      * rewrite lookup_insert_eq. done.
  - unfold step. rewrite Hc.
    rewrite (onMessage_typed _ _ _ _ _ _ Ht). simpl.
    destruct (valid_poll_guards q opts Hne Hlen) as (Hq0 & Hl1 & Hl2).
    unfold on_create_game. simpl. rewrite Hrole, Hq, Hopts. simpl.
    rewrite Hq0, Hl1, trimAll_strings. simpl. rewrite Hl2.
    rewrite <- (app_nil_r pre), generateGameCode_skips by done. done.
Qed.

Lemma create_uses_first_free_code_witness :
  let g := colors lobby [] in
  let w := world_with g in
  let m := msg_create_game "Best pet?" ["Cat"; "Dog"] in
  Forall (λ d, is_Some (w_games w !! d)) ["123456"; "123456"]
  ∧ (∃ w' g',
       step all_open ["123456"; "123456"; "777777"; "123456"] w
         (EMessage 0 (Some m))
       = Done (w', send all_open 0
                     (PGameCreated "777777" (trim "Best pet?")
                        (nonEmpty (trim <$> ["Cat"; "Dog"]))))
       ∧ w_games w' = <["777777" := g']> (w_games w)
       ∧ (∀ cd', cd' ≠ "777777" → w_games w' !! cd' = w_games w !! cd')
       ∧ code g' = "777777" ∧ hostSocket g' = 0 ∧ hostId g' = 0
       ∧ state g' = lobby ∧ players g' = []
       ∧ currentGameCode <$> w_conns w' !! 0 = Some (Some "777777"))
  ∧ step all_open ["123456"; "123456"] w (EMessage 0 (Some m)) = Spins.
Proof.
  intros g w m.
  assert (Hpre : Forall (λ d, is_Some (w_games w !! d)) ["123456"; "123456"]).
  { repeat constructor; by exists g. }
  assert (Hlen : 2 ≤ length (nonEmpty (trim <$> ["Cat"; "Dog"])))
    by (vm_compute; lia).
  assert (Hq : "Best pet?" ≠ "") by discriminate.
  destruct (create_uses_first_free_code all_open 0 w host_conn m
              "Best pet?" ["Cat"; "Dog"] ["123456"; "123456"]
              eq_refl eq_refl eq_refl eq_refl eq_refl Hq Hlen Hpre)
    as [Hfree Hspin].
  split; [exact Hpre|]. split; [|exact Hspin].
  exact (Hfree "777777" ["123456"] eq_refl).
Defined.

(** ** Joining *)

(** An accepted [player:join] answers the joiner with [player:joined],
    carrying the question and the options when the session is [active]
    and [null] for both otherwise; then sends the host the roster with
    the newcomer last, under a fresh identifier, with its name trimmed
    and cut to 40 code units, and not having voted; then, only when the
    session is [active], sends the joiner the [poll:start] of the round
    in progress. The connection is attached to the session and to the
    new entry. *)
Theorem join_announces_player ready draws w s c m cd name g :
  reachable w →
  w_conns w !! s = Some c → role c = Some player →
  as_string (prop "type" m) = Some "player:join" →
  prop "code" m = Some (JStr cd) → prop "name" m = Some (JStr name) →
  cd ≠ "" → name ≠ "" →
  w_games w !! cd = Some g →
  let live := bool_decide (state g = active) in
  ∃ w',
    step ready draws w (EMessage s (Some m))
    = Done (w',
            send ready s
              (PJoined cd (if live then Some (question g) else None)
                          (if live then Some (options g) else None))
            ++ send ready (hostSocket g)
                 (PPlayersUpdated
                    (serializePlayers g
                     ++ [(w_uuids w, slice0 40 (trim name), false)]))
            ++ (if live
                then send ready s (PPollStart (question g) (options g))
                else []))
    ∧ w_conns w' !! s
      = Some {| clientId := clientId c; role := role c;
                currentGameCode := Some cd; playerId := Some (w_uuids w) |}
    ∧ w_uuids w' = S (w_uuids w).
Proof.
  intros Hr Hc Hrole Ht Hcode Hname Hcd Hn Hg live.
  assert (Hfresh : w_uuids w ∉ mkeys (players g)).
  { intros Hin. assert (w_uuids w < w_uuids w); [|lia].
    eapply roster_ids_below; [by apply reachable_ok|exact Hg|exact Hin]. }
  assert (Hser : ∀ pl,
    mvalues (mset (w_uuids w) pl (players g)) = mvalues (players g) ++ [pl]).
  { intros pl. rewrite mset_fresh by done. unfold mvalues.
    by rewrite fmap_app. }
  eexists. split.
  - erewrite step_message; [|done|].
    2:{ rewrite (onMessage_typed _ _ _ _ _ _ Ht). simpl.
        unfold on_join, lookupGame. simpl.
        rewrite Hrole, Hcode, Hname. simpl. rewrite Hg. simpl.
        apply String.eqb_neq in Hcd, Hn. rewrite Hcd, Hn. simpl.
        unfold serializePlayers. simpl. rewrite Hser, map_app. simpl.
        reflexivity. }
    reflexivity.
  - simpl. by rewrite lookup_insert_eq, Hrole.
Qed.

Lemma join_announces_player_witness :
  reachable (world_with (colors ended [(2, ann true (Some 0%Q))]))
  ∧ ∃ w',
      step all_open [] (world_with (colors ended [(2, ann true (Some 0%Q))]))
        (EMessage 1 (Some (msg_join "123456" "  Bob  ")))
      = Done (w',
              [(1, PJoined "123456" None None);
               (0, PPlayersUpdated [(2, "Ann", true); (3, "Bob", false)])])
      ∧ w_conns w' !! 1
        = Some {| clientId := 1; role := Some player;
                  currentGameCode := Some "123456"; playerId := Some 3 |}
      ∧ w_uuids w' = 4.
Proof.
  split; [exact scenario_reachable|].
  exact (join_announces_player all_open []
           (world_with (colors ended [(2, ann true (Some 0%Q))])) 1 ann_conn
           (msg_join "123456" "  Bob  ") "123456" "  Bob  "
           (colors ended [(2, ann true (Some 0%Q))])
           scenario_reachable eq_refl eq_refl eq_refl eq_refl eq_refl
           ltac:(discriminate) ltac:(discriminate) eq_refl).
Defined.

(** ** Votes and rounds *)

Lemma reachable_games_ind (P : Game → Prop) :
  (∀ u u' s old g',
     evolves u u' s old g' →
     (∀ g, old = Some g → game_ok u g ∧ P g) → P g') →
  ∀ w, reachable w → ∀ cd g, w_games w !! cd = Some g → P g.
Proof.
  intros Hpres w Hr.
  induction Hr as [|ready draws w e w' out Hr IH Hstep]; intros cd g Hg.
  - simpl in Hg. by rewrite lookup_empty in Hg.
  - apply reachable_ok in Hr as [Hok _].
    destruct (step_change _ _ _ _ _ _ Hstep)
      as (s & [[Hgs _]|[(k & g' & Hgs & Hev)|(k & g0 & _ & Hgs & _)]]);
      rewrite Hgs in Hg.
    + eauto.
    + rewrite lookup_insert in Hg. case_decide; [|eauto]. simplify_eq.
      eapply Hpres; [exact Hev|]. intros g0 Hg0. split; eauto.
    + apply lookup_delete_Some in Hg as [_ Hg]. eauto.
Qed.

Lemma countVotes_no_choice g :
  Forall (λ pl, choiceIndex pl = None) (mvalues (players g)) →
  countVotes g = (λ _, Some 0) <$> options g.
Proof.
  intros Hall. unfold countVotes.
  assert (Hfold : ∀ acc, foldl vote_into acc (mvalues (players g)) = acc).
  { induction Hall as [|pl ps Hpl _ IH]; intros acc; simpl; [done|].
    unfold vote_into at 2. rewrite Hpl. apply IH. }
  by rewrite Hfold.
Qed.

(** In every world the server can be in, a session in the lobby holds
    no vote: none of its players has [hasVoted] set or a choice stored,
    and its tally is zero at every option. Votes exist only in a round
    that is running or has ended. *)
Theorem lobby_holds_no_vote w cd g :
  reachable w → w_games w !! cd = Some g → state g = lobby →
  Forall (λ pl, hasVoted pl = false ∧ choiceIndex pl = None)
         (mvalues (players g))
  ∧ countVotes g = (λ _, Some 0) <$> options g.
Proof.
  intros Hr Hg Hst.
  assert (Hnv : Forall (λ e : Uuid * Player, hasVoted e.2 = false) (players g)).
  { revert Hst.
    apply (reachable_games_ind
             (λ g, state g = lobby →
                   Forall (λ e : Uuid * Player, hasVoted e.2 = false)
                          (players g))) with (w := w) (cd := cd);
      [|done|done].
    clear. intros u u' s old g' Hev Hold.
    destruct Hev as [g' ? Hopts Hps|g g' ? Hopts Hps|g g' ? Hopts Hps Hst'
                    |g g' ? Hopts Hps Hst'|g g' pl ? Hopts Hps Hid Hsock Hv Hc Hst'
                    |g g' pid pl q ? Hopts Hget Hnv Hq Hps Hst' Hact
                    |g g' pid ? Hopts Hps Hst'];
      rewrite Hps; intros Hl.
    - constructor.
    - unfold resetPlayers. apply Forall_fmap, Forall_true. done.
    - congruence.
    - congruence.
    - apply mset_Forall; [done|]. apply (Hold g eq_refl). congruence.
    - congruence.
    - apply mdelete_Forall. apply (Hold g eq_refl). congruence. }
  assert (Hall : Forall (λ pl, hasVoted pl = false ∧ choiceIndex pl = None)
                        (mvalues (players g))).
  { unfold mvalues. apply Forall_fmap. rewrite Forall_forall in Hnv.
    apply Forall_forall. intros [pid pl] Hin. simpl.
    specialize (Hnv _ Hin). simpl in Hnv. split; [done|].
    destruct (stored_choice_in_range _ _ _ _ _ Hr Hg Hin) as [Hiff _].
    destruct (choiceIndex pl) as [q|]; [|done].
    assert (hasVoted pl = true) by (apply Hiff; by eexists). congruence. }
  split; [done|]. apply countVotes_no_choice.
  eapply Forall_impl; [exact Hall|]. by intros pl [_ ?].
Qed.

Lemma lobby_holds_no_vote_witness :
  let g := {| code := "123456"; hostId := 0; hostSocket := 0;
              question := "Pick a pet"; options := ["Cat"; "Dog"];
              players := [(2, ann false None)]; state := lobby |} in
  ∃ w0 out0 w out,
    run init scenario = Done (w0, out0)
    ∧ w_games w0 !! "123456"
      = Some (colors ended [(2, ann true (Some 0%Q))])
    ∧ run init relobby_trace = Done (w, out)
    ∧ w_games w !! "123456" = Some g
    ∧ Forall (λ pl, hasVoted pl = false ∧ choiceIndex pl = None)
             (mvalues (players g))
    ∧ countVotes g = (λ _, Some 0) <$> options g.
Proof.
  intros g.
  destruct (run init scenario) as [[w0 out0]| |] eqn:Hrun0;
    [|vm_compute in Hrun0; discriminate..].
  destruct (run init relobby_trace) as [[w out]| |] eqn:Hrun;
    [|vm_compute in Hrun; discriminate..].
  assert (Hg0 : w_games w0 !! "123456"
                = Some (colors ended [(2, ann true (Some 0%Q))])).
  { vm_compute in Hrun0. injection Hrun0 as <- _. reflexivity. }
  assert (Hg : w_games w !! "123456" = Some g).
  { vm_compute in Hrun. injection Hrun as <- _. reflexivity. }
  exists w0, out0, w, out. split; [reflexivity|]. split; [exact Hg0|].
  split; [reflexivity|]. split; [exact Hg|].
  exact (lobby_holds_no_vote w "123456" g
           (run_reachable _ _ _ _ reachable_init Hrun) Hg eq_refl).
Defined.

Lemma serialize_reset g' g :
  players g' = resetPlayers (players g) →
  serializePlayers g'
  = (λ pl, (p_id pl, p_name pl, false)) <$> mvalues (players g).
Proof.
  intros Hps. unfold serializePlayers. rewrite Hps, resetPlayers_values.
  change (map ?f ?l) with (f <$> l). by rewrite <- list_fmap_compose.
Qed.

Lemma broadcast_reset ready g' g p :
  players g' = resetPlayers (players g) →
  broadcastToPlayers ready g' p
  = (λ pl, (p_socket pl, p))
      <$> filter (λ pl, ready (p_socket pl) = true) (mvalues (players g)).
Proof.
  intros Hps. rewrite broadcast_filter, Hps, resetPlayers_values.
  induction (mvalues (players g)) as [|pl l IH]; [done|]. csimpl.
  rewrite !filter_cons. simpl. case_decide; csimpl; by rewrite IH.
Qed.

(** An accepted [host:start_poll] shows the host every player as
    waiting, sends [poll:start] with the session's question and options
    to every roster player whose socket is writable, acknowledges the
    host last, and leaves a tally that is zero at every option: the
    votes of an earlier round count for nothing in the new one. *)
Theorem start_poll_opens_fresh_round ready draws w s c cd g m :
  w_conns w !! s = Some c →
  role c = Some host →
  currentGame c (w_games w) = Some (cd, g) →
  as_string (prop "type" m) = Some "host:start_poll" →
  state g ≠ active →
  ∃ g',
    step ready draws w (EMessage s (Some m))
    = Done ({| w_games := <[cd := g']> (w_games w);
               w_conns := w_conns w; w_uuids := w_uuids w;
               w_socks := w_socks w |},
            send ready s
              (PPlayersUpdated
                 ((λ pl, (p_id pl, p_name pl, false))
                    <$> mvalues (players g)))
            ++ ((λ pl, (p_socket pl, PPollStart (question g) (options g)))
                  <$> filter (λ pl, ready (p_socket pl) = true)
                             (mvalues (players g)))
            ++ send ready s PPollStarted)
    ∧ question g' = question g ∧ options g' = options g
    ∧ countVotes g' = (λ _, Some 0) <$> options g.
Proof.
  intros Hc Hrole Hgame Ht Hst. eexists.
  erewrite step_message; [|done|].
  2:{ rewrite (onMessage_typed _ _ _ _ _ _ Ht). simpl.
      unfold on_start_poll. simpl. rewrite Hrole, Hgame. simpl.
      rewrite bool_decide_false by done. reflexivity. }
  rewrite world_of_games by done.
  rewrite (serialize_reset _ g) by reflexivity.
  rewrite (broadcast_reset _ _ g) by reflexivity.
  split; [reflexivity|]. split; [done|]. split; [done|].
  rewrite countVotes_no_choice; [done|]. simpl.
  eapply Forall_impl; [apply resetPlayers_cleared|]. by intros pl [_ ?].
Qed.

Lemma start_poll_opens_fresh_round_witness :
  let g := colors ended [(2, ann true (Some 0%Q))] in
  let w := world_with g in
  state g ≠ active
  ∧ ∃ g',
      step all_open [] w (EMessage 0 (Some msg_start_poll))
      = Done ({| w_games := <["123456" := g']> (w_games w);
                 w_conns := w_conns w; w_uuids := 3; w_socks := 2 |},
              [(0, PPlayersUpdated [(2, "Ann", false)]);
               (1, PPollStart "Pick a color" ["Red"; "Blue"]);
               (0, PPollStarted)])
      ∧ question g' = "Pick a color" ∧ options g' = ["Red"; "Blue"]
      ∧ countVotes g' = [Some 0; Some 0].
Proof.
  intros g w.
  assert (Hst : state g ≠ active) by discriminate.
  split; [exact Hst|].
  exact (start_poll_opens_fresh_round all_open [] w 0 host_conn "123456" g
           msg_start_poll eq_refl eq_refl eq_refl eq_refl Hst).
Defined.

Lemma mget_mset_eq {K V} `{EqDecision K} (k : K) (v : V) m :
  mget k (mset k v m) = Some v.
Proof.
  induction m as [|[k0 v0] m IH]; simpl.
  - by rewrite decide_True.
  - destruct (decide (k = k0)) as [->|Hne]; simpl.
    + by rewrite decide_True.
    + by rewrite decide_False.
Qed.

Lemma mset_split {K V} `{EqDecision K} (k : K) (v v' : V) m :
  mget k m = Some v →
  ∃ l1 l2, m = l1 ++ (k, v) :: l2 ∧ mset k v' m = l1 ++ (k, v') :: l2.
Proof.
  induction m as [|[k0 v0] m IH]; simpl; [done|].
  case_decide.
  - intros [= ->]. subst. by exists [], m.
  - intros Hget. destruct (IH Hget) as (l1 & l2 & -> & ->).
    by exists ((k0, v0) :: l1), l2.
Qed.

Lemma tally_replace n l1 l2 pl pl' :
  chosen pl = None →
  (∀ i, chosen pl' = Some i → i < n) →
  tally n (l1 ++ pl' :: l2)
  = match chosen pl' with
    | Some i => alter (fmap S) i (tally n (l1 ++ pl :: l2))
    | None => tally n (l1 ++ pl :: l2)
    end.
Proof.
  intros Hpl Hin.
  assert (Hcount : ∀ j,
    length (filter (λ p, chosen p = Some j) (l1 ++ pl' :: l2))
    = (if decide (chosen pl' = Some j) then 1 else 0)
      + length (filter (λ p, chosen p = Some j) (l1 ++ pl :: l2))).
  { intros j. rewrite !filter_app, !length_app, !filter_cons.
    rewrite (decide_False (P := chosen pl = Some j)) by congruence.
    case_decide; simpl; lia. }
  apply list_eq. intros j. destruct (chosen pl') as [i|] eqn:Hc.
  - specialize (Hin i eq_refl). destruct (decide (i = j)) as [<-|Hne].
    + rewrite list_lookup_alter_eq, !tally_lookup, !decide_True by done.
      rewrite Hcount, decide_True by done. done.
    + rewrite list_lookup_alter_ne, !tally_lookup by done.
      case_decide; [|done]. rewrite Hcount, decide_False by congruence. done.
  - rewrite !tally_lookup. case_decide; [|done].
    rewrite Hcount, decide_False by done. done.
Qed.

(** In every world the server can be in, an accepted vote changes the
    tally in one place at most: the count of the option whose index is
    the number voted goes up by one and every other count stays, and a
    number that is the index of no option leaves the tally as it was.
    The voter is told its choice, and the host is sent the roster and
    this tally. *)
Theorem accepted_vote_moves_one_count ready draws w s c cd g pid pl m q :
  reachable w →
  w_conns w !! s = Some c → role c = Some player →
  currentGame c (w_games w) = Some (cd, g) →
  state g = active →
  playerId c = Some pid → mget pid (players g) = Some pl →
  hasVoted pl = false →
  as_string (prop "type" m) = Some "player:vote" →
  prop "choiceIndex" m = Some (JNum q) →
  in_range q (length (options g)) →
  ∃ w' g',
    step ready draws w (EMessage s (Some m))
    = Done (w', send ready s (PVoted q)
                ++ send ready (hostSocket g)
                     (PPlayersUpdated (serializePlayers g'))
                ++ send ready (hostSocket g)
                     (PPollProgress (countVotes g')))
    ∧ w_games w' = <[cd := g']> (w_games w)
    ∧ mget pid (players g') = Some (voted pl q)
    ∧ countVotes g'
      = match as_index q with
        | Some i => alter (fmap S) i (countVotes g)
        | None => countVotes g
        end.
Proof.
  intros Hr Hc Hrole Hgame Hact Hpid Hpl Hnv Ht Hq Hrange.
  pose proof Hgame as Hgame'.
  apply currentGame_Some in Hgame' as (_ & _ & Hg).
  assert (Hvalid : validChoice (Some (JNum q)) g = Some q).
  { unfold validChoice. destruct Hrange as [H0 Hn].
    assert (E0 : Qle_bool 0 q = true) by (by apply Qle_bool_iff).
    rewrite E0. simpl.
    destruct (Qle_bool (inject_Z _) q) eqn:E; [|done].
    apply Qle_bool_iff, Qle_not_lt in E. contradiction. }
  eexists _, _. split; [|split; [|split]].
  - eapply step_message; [done|].
    rewrite (onMessage_typed _ _ _ _ _ _ Ht). simpl.
    unfold on_vote, ownPlayer. simpl.
    rewrite Hrole, Hgame, Hpid. simpl.
    rewrite bool_decide_true by done. simpl. rewrite Hpl. simpl.
    rewrite Hnv, Hq, Hvalid. reflexivity.
  - done.
  - simpl. apply mget_mset_eq.
  - assert (Hnone : chosen pl = None).
    { apply mget_Some_in in Hpl.
      destruct (stored_choice_in_range _ _ _ _ _ Hr Hg Hpl) as [Hiff _].
      unfold chosen. destruct (choiceIndex pl) as [q'|]; [|done].
      assert (hasVoted pl = true) by (apply Hiff; by eexists). congruence. }
    assert (Hin : ∀ i, chosen (voted pl q) = Some i → i < length (options g)).
    { intros i Hi. unfold chosen in Hi. simpl in Hi.
      eapply as_index_in_range; eauto. }
    pose proof (reachable_choices_within _ _ _ Hr Hg) as Hwithin.
    destruct (mset_split pid pl (voted pl q) _ Hpl) as (l1 & l2 & Hm & Hset).
    assert (Hv : mvalues (players g) = l1.*2 ++ pl :: l2.*2).
    { unfold mvalues. rewrite Hm, fmap_app. done. }
    assert (Hv' : mvalues (mset pid (voted pl q) (players g))
                  = l1.*2 ++ voted pl q :: l2.*2).
    { unfold mvalues. rewrite Hset, fmap_app. done. }
    rewrite (countVotes_tally g Hwithin), Hv.
    change {| p_id := p_id pl; p_name := p_name pl; p_socket := p_socket pl;
              hasVoted := true; choiceIndex := Some q |} with (voted pl q).
    rewrite countVotes_tally.
    + cbn [players options]. rewrite Hv'. by apply tally_replace.
    + intros p i. cbn [players options]. rewrite Hv'.
      intros [Hp|[->|Hp]%elem_of_cons]%elem_of_app Hi.
      * apply (Hwithin p); [|done]. rewrite Hv. apply elem_of_app. by left.
      * by apply Hin.
      * apply (Hwithin p); [|done]. rewrite Hv. apply elem_of_app.
        right. by right.
Qed.

Lemma accepted_vote_moves_one_count_witness :
  let g0 := colors ended [(2, ann true (Some 0%Q))] in
  ∃ w1 out1 g,
    step all_open [] (world_with g0) (EMessage 0 (Some msg_start_poll))
    = Done (w1, out1)
    ∧ currentGame ann_conn (w_games w1) = Some ("123456", g)
    ∧ ∃ w' g',
        step all_open [] w1 (EMessage 1 (Some (msg_vote 1%Q)))
        = Done (w', send all_open 1 (PVoted 1%Q)
                    ++ send all_open (hostSocket g)
                         (PPlayersUpdated (serializePlayers g'))
                    ++ send all_open (hostSocket g)
                         (PPollProgress (countVotes g')))
        ∧ w_games w' = <["123456" := g']> (w_games w1)
        ∧ mget 2 (players g') = Some (ann true (Some 1%Q))
        ∧ countVotes g' = [Some 0; Some 1].
Proof.
  intros g0.
  destruct (step all_open [] (world_with g0) (EMessage 0 (Some msg_start_poll)))
    as [[w1 out1]| |] eqn:Hs; [|vm_compute in Hs; discriminate..].
  assert (Hr : reachable w1)
    by exact (reachable_step _ _ _ _ _ _ scenario_reachable Hs).
  assert (Hw : w1 = world_with (colors active [(2, ann false None)])).
  { vm_compute in Hs. injection Hs as <- _. vm_compute. reflexivity. }
  exists w1, out1, (colors active [(2, ann false None)]).
  split; [reflexivity|]. rewrite Hw in Hr |- *. split; [reflexivity|].
  assert (Hrange : in_range 1%Q (length (options (colors active [(2, ann false None)])))).
  { split; vm_compute; [discriminate|reflexivity]. }
  exact (accepted_vote_moves_one_count all_open [] _ 1 ann_conn "123456"
           (colors active [(2, ann false None)]) 2 (ann false None)
           (msg_vote 1%Q) 1%Q Hr eq_refl eq_refl eq_refl eq_refl eq_refl
           eq_refl eq_refl eq_refl eq_refl Hrange).
Defined.

(** ** Display names *)

Lemma slice0_length n s : String.length (slice0 n s) ≤ n.
Proof.
  revert s. induction n as [|n IH]; intros [|a s];
    try (change (0 ≤ 0); lia); try (change (0 ≤ S n); lia).
  change (S (String.length (slice0 n s)) ≤ S n). specialize (IH s). lia.
Qed.

Lemma onMessage_names ready draws s raw st st' out :
  (∀ cd g, games st !! cd = Some g →
     Forall (λ e : Uuid * Player, String.length (p_name e.2) ≤ 40)
            (players g)) →
  onMessage ready draws s raw st = Done (st', out) →
  ∀ cd g, games st' !! cd = Some g →
    Forall (λ e : Uuid * Player, String.length (p_name e.2) ≤ 40) (players g).
Proof.
  intros Hk H cd g Ha. open_message H.
  all: break_handler; eauto.
  all: use_guards; at_key Ha; eauto.
  all: try by constructor.
  all: match goal with
       | Hg : games _ !! _ = Some ?g0 |- _ =>
           pose proof (Hk _ _ Hg) as Hold
       end.
  - unfold resetPlayers. apply Forall_fmap.
    eapply Forall_impl; [exact Hold|]. by intros [].
  - unfold resetPlayers. apply Forall_fmap.
    eapply Forall_impl; [exact Hold|]. by intros [].
  - apply mset_Forall; [simpl; apply slice0_length|done].
  - apply mset_Forall; [simpl|done].
    match goal with Hp : mget _ _ = Some ?p |- _ =>
      apply mget_Some_in in Hp; rewrite Forall_forall in Hold;
      exact (Hold _ Hp) end.
Qed.

(** In every world the server can be in, the display name of every
    roster player is at most 40 code units long: a longer name is cut
    at join, after trimming, and nothing lengthens a name afterwards. *)
Theorem names_at_most_forty w cd g pid pl :
  reachable w → w_games w !! cd = Some g → (pid, pl) ∈ players g →
  String.length (p_name pl) ≤ 40.
Proof.
  intros Hr Hg Hin.
  assert (Hall : ∀ cd g, w_games w !! cd = Some g →
            Forall (λ e : Uuid * Player, String.length (p_name e.2) ≤ 40)
                   (players g)).
  { clear cd g pid pl Hg Hin.
    induction Hr as [|ready draws w e w' out Hr IH Hstep]; intros cd g Hg.
    - simpl in Hg. by rewrite lookup_empty in Hg.
    - destruct e as [|s raw|s]; simpl in Hstep.
      + simplify_eq/=. eauto.
      + destruct (w_conns w !! s) as [c|]; [|simplify_eq; eauto].
        destruct (onMessage _ _ _ _ _) as [[st' o]| |] eqn:Hm; simplify_eq/=.
        eapply onMessage_names; [|exact Hm|exact Hg]. exact IH.
      + destruct (w_conns w !! s) as [c|]; [|simplify_eq; eauto].
        destruct (onClose _ _) as [st' o] eqn:Hm. simplify_eq/=.
        unfold onClose, destroyGame, with_games in Hm.
        break_handler; eauto; use_guards.
        * apply lookup_delete_Some in Hg as [_ Hg]. eauto.
        * at_key Hg; eauto. apply mdelete_Forall. eauto. }
  specialize (Hall _ _ Hg). rewrite Forall_forall in Hall.
  exact (Hall _ Hin).
Qed.

Lemma names_at_most_forty_witness :
  let g := colors ended [(2, ann true (Some 0%Q))] in
  reachable (world_with g)
  ∧ String.length (p_name (ann true (Some 0%Q))) ≤ 40.
Proof.
  intros g. split; [exact scenario_reachable|].
  apply (names_at_most_forty (world_with g) "123456" g 2
           (ann true (Some 0%Q)) scenario_reachable eq_refl).
  left.
Defined.

(** ** Frames that make a handler throw *)

Lemma trimAll_non_text l :
  Exists (λ j, is_text j = false) l → trimAll l = Throws.
Proof.
  induction 1 as [j l Hj|j l _ IH]; simpl.
  - by destruct j.
  - destruct j; try done. by rewrite IH.
Qed.

(** A poll whose options array holds a value that is not a string, and
    a join whose name is a value that is truthy but not a string, are
    not refused: once past the emptiness tests the handler calls [trim]
    on the value and throws. Nothing is sent to the sender, and no
    session is changed before the throw. A frame that is the JSON
    [null] throws as soon as its type is read. *)
Theorem non_text_field_throws ready draws w s c :
  w_conns w !! s = Some c →
  (∀ m opts,
     role c = Some host →
     as_string (prop "type" m) = Some "host:create_game" →
     truthy (prop "question" m) = true →
     prop "options" m = Some (JArr opts) → 2 ≤ length opts →
     Exists (λ j, is_text j = false) opts →
     step ready draws w (EMessage s (Some m)) = Throws)
  ∧ (∀ m opts cd g,
       role c = Some host →
       currentGame c (w_games w) = Some (cd, g) →
       as_string (prop "type" m) = Some "host:update_poll" →
       truthy (prop "question" m) = true →
       prop "options" m = Some (JArr opts) → 2 ≤ length opts →
       Exists (λ j, is_text j = false) opts →
       step ready draws w (EMessage s (Some m)) = Throws)
  ∧ (∀ m cd g name,
       role c = Some player →
       as_string (prop "type" m) = Some "player:join" →
       prop "code" m = Some (JStr cd) → cd ≠ "" →
       w_games w !! cd = Some g →
       prop "name" m = Some name → truthy (Some name) = true →
       is_text name = false →
       step ready draws w (EMessage s (Some m)) = Throws)
  ∧ step ready draws w (EMessage s (Some JNull)) = Throws.
Proof.
  intros Hc. unfold step. rewrite Hc. repeat split.
  - intros m opts Hrole Ht Hq Hopts Hlen Hex.
    rewrite (onMessage_typed _ _ _ _ _ _ Ht). simpl.
    unfold on_create_game. simpl. rewrite Hrole, Hq, Hopts. simpl.
    apply Nat.ltb_ge in Hlen. rewrite Hlen.
    by rewrite trimAll_non_text.
  - intros m opts cd g Hrole Hgame Ht Hq Hopts Hlen Hex.
    rewrite (onMessage_typed _ _ _ _ _ _ Ht). simpl.
    unfold on_update_poll. simpl. rewrite Hrole, Hgame, Hq, Hopts. simpl.
    apply Nat.ltb_ge in Hlen. rewrite Hlen.
    by rewrite trimAll_non_text.
  - intros m cd g name Hrole Ht Hcode Hcd Hg Hname Htr Htext.
    rewrite (onMessage_typed _ _ _ _ _ _ Ht). simpl.
    unfold on_join, lookupGame. simpl. rewrite Hrole, Hcode, Hname.
    apply String.eqb_neq in Hcd.
    destruct name as [|b|q|t|l|o]; try discriminate;
      simpl in Htr |- *; rewrite Hcd; simpl; rewrite ?Htr; simpl;
      by rewrite Hg.
Qed.

Lemma non_text_field_throws_witness :
  let w := world_with (colors lobby []) in
  step all_open ["654321"] w
    (EMessage 0 (Some (JObj [("type", JStr "host:create_game");
                             ("question", JStr "Pick a number");
                             ("options", JArr [JStr "One"; JNum 2%Q])])))
  = Throws
  ∧ step all_open [] w
      (EMessage 1 (Some (JObj [("type", JStr "player:join");
                               ("code", JStr "123456");
                               ("name", JNum 7%Q)])))
    = Throws.
Proof.
  intros w.
  destruct (non_text_field_throws all_open ["654321"] w 0 host_conn eq_refl)
    as (Hcreate & _).
  destruct (non_text_field_throws all_open [] w 1 ann_conn eq_refl)
    as (_ & _ & Hjoin & _).
  split.
  - apply (Hcreate _ [JStr "One"; JNum 2%Q]);
      first [reflexivity | right; left; reflexivity].
  - apply (Hjoin _ "123456" (colors lobby []) (JNum 7%Q)); try reflexivity.
    discriminate.
Defined.

(** ** The host page *)

Lemma sanitizeOptions_clean opts :
  Forall (λ o, o ≠ "" ∧ trim o = o) (sanitizeOptions opts).
Proof.
  unfold sanitizeOptions. apply Forall_take.
  induction opts as [|o opts IH]; csimpl; [constructor|].
  rewrite filter_cons. case_decide as Hlen; [|done].
  constructor; [|done]. split; [|apply trim_idem].
  intros Heq. rewrite Heq in Hlen. simpl in Hlen. lia.
Qed.

Lemma server_keeps_clean_options l :
  Forall (λ o, o ≠ "" ∧ trim o = o) l → nonEmpty (trim <$> l) = l.
Proof.
  unfold nonEmpty. induction 1 as [|o l [Hne Htrim] _ IH]; csimpl; [done|].
  rewrite filter_cons, Htrim, decide_True by done. by rewrite IH.
Qed.

(** What the host page sends is stored as sent. Whenever
    [sendPollMutation] produces a [host:create_game] frame, the
    question in it is trimmed and non-empty and the options are between
    two and six, trimmed and non-empty; a server that receives it from
    an identified host, with a free code among the draws, accepts it
    and stores that question and those options unchanged. *)
Theorem host_page_poll_is_stored_as_sent ready draws w s c cd
    ok up qtext inputs m :
  sendPollMutation ok up "host:create_game" qtext inputs = Some m →
  w_conns w !! s = Some c → role c = Some host →
  generateGameCode (w_games w) draws = Done cd →
  trim qtext ≠ ""
  ∧ 2 ≤ length (sanitizeOptions inputs) ≤ MAX_OPTIONS
  ∧ ∃ w' g',
      step ready draws w (EMessage s (Some m))
      = Done (w', send ready s
                    (PGameCreated cd (trim qtext)
                                  (sanitizeOptions inputs)))
      ∧ w_games w' !! cd = Some g'
      ∧ question g' = trim qtext
      ∧ options g' = sanitizeOptions inputs.
Proof.
  unfold sendPollMutation. intros Hsend Hc Hrole Hcode.
  destruct ok; [|done]. simpl in Hsend.
  destruct (String.eqb_spec (trim qtext) "") as [|Hq]; [done|].
  destruct (Nat.ltb_spec (length (sanitizeOptions inputs)) 2) as [|Hlen];
    [done|].
  destruct up; [|done]. injection Hsend as <-.
  pose proof (sanitizeOptions_clean inputs) as Hclean.
  pose proof (server_keeps_clean_options _ Hclean) as Hkeep.
  split; [done|]. split; [split; [done|apply sanitizeOptions_at_most_six]|].
  assert (Hlen' : 2 ≤ length (nonEmpty (trim <$> sanitizeOptions inputs)))
    by (by rewrite Hkeep).
  pose proof (on_create_game_accepted ready draws s (st_of w c)
                (JObj [("type", JStr "host:create_game");
                       ("question", JStr (trim qtext));
                       ("options", JArr (JStr <$> sanitizeOptions inputs))])
                (trim qtext) (sanitizeOptions inputs) cd
                Hrole eq_refl eq_refl Hq Hlen' Hcode) as Hacc.
  rewrite Hkeep, trim_idem in Hacc. simpl in Hacc.
  eexists _, _. split.
  - eapply step_message; [done|].
    rewrite (onMessage_typed _ _ _ _ _ "host:create_game") by done.
    exact Hacc.
  - simpl. by rewrite lookup_insert_eq.
Qed.

Lemma host_page_poll_is_stored_as_sent_witness :
  let inputs := [" a "; ""; "b"; "c"; "d"; "e"; "f"; "g"] in
  sendPollMutation true true "host:create_game" "  Letter? " inputs
  = Some (msg_create_game "Letter?" ["a"; "b"; "c"; "d"; "e"; "f"])
  ∧ ∃ w' g',
      step all_open ["123456"] host_only
        (EMessage 0 (Some (msg_create_game "Letter?"
                             ["a"; "b"; "c"; "d"; "e"; "f"])))
      = Done (w', send all_open 0
                    (PGameCreated "123456" (trim "  Letter? ")
                                  (sanitizeOptions inputs)))
      ∧ w_games w' !! "123456" = Some g'
      ∧ question g' = trim "  Letter? "
      ∧ options g' = sanitizeOptions inputs.
Proof.
  intros inputs. split; [reflexivity|].
  exact (proj2 (proj2
    (host_page_poll_is_stored_as_sent all_open ["123456"] host_only 0 _
       "123456" true true "  Letter? " inputs _ eq_refl eq_refl eq_refl
       eq_refl))).
Defined.

(** The option fields of the host form stay between two and six:
    [ensureOptionInputs] always returns between two and six fields and
    returns a list that is already so unchanged; adding a field appends
    one empty field unless there are six already, and removing a field
    drops the one at the index given unless it would leave fewer than
    two. *)
Theorem option_fields_between_two_and_six fields :
  2 ≤ length (ensureOptionInputs fields) ≤ MAX_OPTIONS
  ∧ (2 ≤ length fields ≤ MAX_OPTIONS →
     ensureOptionInputs fields = fields
     ∧ 2 ≤ length (handleAddOption fields) ≤ MAX_OPTIONS
     ∧ (length fields < MAX_OPTIONS →
        handleAddOption fields = fields ++ [""])
     ∧ (length fields = MAX_OPTIONS → handleAddOption fields = fields)
     ∧ ∀ i, 2 ≤ length (handleRemoveOption i fields) ≤ MAX_OPTIONS
            ∧ (2 < length fields →
               handleRemoveOption i fields = delete i fields)
            ∧ (length fields = 2 → handleRemoveOption i fields = fields)).
Proof.
  unfold MAX_OPTIONS.
  assert (Hens : ∀ l, 2 ≤ length (ensureOptionInputs l) ≤ 6).
  { intros l. unfold ensureOptionInputs, MAX_OPTIONS.
    rewrite length_take, length_app, length_replicate. lia. }
  assert (Hid : ∀ l, 2 ≤ length l ≤ 6 → ensureOptionInputs l = l).
  { intros l Hl. unfold ensureOptionInputs, MAX_OPTIONS.
    replace (2 - length l) with 0 by lia. simpl.
    rewrite app_nil_r. apply take_ge. lia. }
  split; [apply Hens|]. intros Hl.
  split; [by apply Hid|]. unfold handleAddOption, MAX_OPTIONS.
  split; [|split; [|split]].
  - destruct (Nat.leb_spec 6 (length fields)); [done|].
    rewrite length_app. simpl. lia.
  - intros Hlt. destruct (Nat.leb_spec 6 (length fields)); [lia|done].
  - intros Heq. destruct (Nat.leb_spec 6 (length fields)); [done|lia].
  - intros i. unfold handleRemoveOption.
    destruct (Nat.leb_spec (length fields) 2) as [Hle|Hgt].
    + split; [done|]. split; [lia|done].
    + split; [apply Hens|]. split; [|lia]. intros _. apply Hid.
      rewrite delete_take_drop, length_app, length_take, length_drop. lia.
Qed.

Lemma option_fields_between_two_and_six_witness :
  handleAddOption ["a"; "b"] = ["a"; "b"; ""]
  ∧ handleRemoveOption 1 ["a"; "b"; "c"] = ["a"; "c"]
  ∧ handleRemoveOption 0 ["a"; "b"] = ["a"; "b"]
  ∧ ensureOptionInputs ["a"] = ["a"; ""].
Proof.
  destruct (option_fields_between_two_and_six ["a"; "b"]) as [_ H2].
  destruct (H2 ltac:(unfold MAX_OPTIONS; simpl; lia))
    as (_ & _ & Hadd & _ & Hrm).
  destruct (option_fields_between_two_and_six ["a"; "b"; "c"]) as [_ H3].
  destruct (H3 ltac:(unfold MAX_OPTIONS; simpl; lia))
    as (_ & _ & _ & _ & Hrm3).
  split; [apply Hadd; unfold MAX_OPTIONS; simpl; lia|].
  split; [apply (Hrm3 1); simpl; lia|].
  split; [by apply (Hrm 0)|reflexivity].
Defined.

(** ** Instances of the earlier facts *)

Lemma reachable_tally_witness :
  let g := colors ended [(2, ann true (Some 0%Q))] in
  reachable (world_with g)
  ∧ length (countVotes g) = 2
  ∧ (∀ i, i < 2 →
       countVotes g !! i
       = Some (Some (length (filter (λ pl, chosen pl = Some i)
                                    (mvalues (players g))))))
  ∧ total (countVotes g)
    = length (filter (λ pl, is_Some (chosen pl)) (mvalues (players g)))
  ∧ total (countVotes g) ≤ length (voters g).
Proof.
  intros g. split; [exact scenario_reachable|].
  exact (reachable_tally (world_with g) "123456" g scenario_reachable eq_refl).
Defined.

Lemma vote_accepted_or_refused_witness :
  let w := world_with (colors active [(2, ann false None)]) in
  ∃ w' out,
    step all_open [] w (EMessage 1 (Some (msg_vote 5%Q))) = Done (w', out)
    ∧ ((w' = w ∧ ∃ msg, out = send all_open 1 (PError msg))
       ∨ (∃ cd g pid pl q g',
            role ann_conn = Some player
            ∧ currentGame ann_conn (w_games w) = Some (cd, g)
            ∧ state g = active
            ∧ playerId ann_conn = Some pid
            ∧ mget pid (players g) = Some pl
            ∧ hasVoted pl = false
            ∧ prop "choiceIndex" (msg_vote 5%Q) = Some (JNum q)
            ∧ in_range q (length (options g))
            ∧ w_games w' = <[cd := g']> (w_games w)
            ∧ players g' = mset pid (voted pl q) (players g)
            ∧ options g' = options g ∧ state g' = active)).
Proof.
  intros w.
  exact (vote_accepted_or_refused all_open [] w 1 ann_conn (msg_vote 5%Q)
           eq_refl eq_refl).
Defined.

Lemma empty_question_rejected_witness :
  let w := world_with (colors lobby []) in
  truthy (prop "question" (msg_update_poll "" ["Red"; "Blue"])) = false
  ∧ ∃ msg, step all_open [] w
             (EMessage 0 (Some (msg_update_poll "" ["Red"; "Blue"])))
           = Done (w, send all_open 0 (PError msg)).
Proof.
  intros w. split; [reflexivity|].
  exact (empty_question_rejected all_open [] w 0 host_conn
           (msg_update_poll "" ["Red"; "Blue"]) "host:update_poll"
           eq_refl eq_refl (or_intror eq_refl) eq_refl).
Defined.
